(** * RMQueue: the blocking RabbitMQ queue adapter of studio/rabbit_queue.py

    A shallow embedding of the [RMQueue] class.  The Python object is a record
    of its instance attributes; every method is a function on a [World], which
    pairs the object with the list of calls made on the broker library, a
    clock counting the one-second sleeps, and a flag telling whether the I/O
    thread is still running.  A [raise] is a [Raise] result next to the world
    as it was left by the statements executed before it.

    Two threads share the object.  The callbacks of the I/O thread are
    functions of their own; a [schedule] tells which of them run during each
    sleep of the caller, and they run nowhere else: between two sleeps a
    method of the facade runs without interference, as the two locks of the
    class arrange for the blocks they guard.

    The pika objects are seen through the calls made on them.  The library
    refuses a call on a channel that is not open (ChannelClosed); this is
    modelled for the two calls the facade can make on such a channel, the
    consumer registration of [dequeue] and [channel.close()] in [stop].
    The callbacks run on the channel pika hands them, and [acknowledge]
    records its basic_ack, made after the slot is cleared, whatever the
    state of the channel.

    Python integers are [Z].  The two [while tries != 0] loops of [enqueue]
    need not end for a negative budget, so they take a [fuel]; [dequeue]
    iterates over a range and is total. *)

From Stdlib Require Import ZArith Lia.
From stdpp Require Import base option list sorting gmap strings.

Open Scope Z_scope.

(** ** Python values the class handles *)

(** The exceptions of the module.  The source raises the bare [Exception]
    with a message; the constructors carry the names of the error taxonomy,
    one per message. *)
Inductive exn : Type :=
  | ConfigurationError   (* Exception('url for rmq not initialized') *)
  | InvalidArgument      (* Exception('message was None, it needs a meaningful value to be sent') *)
  | ChannelUnavailable   (* Exception('studioml request could not be sent') *)
  | PublishUnconfirmed   (* Exception('studioml message was never acknowledged ...') *)
  | Unsupported          (* NotImplementedError *)
  | ValueError           (* list.remove(x): x not in list *)
  | AttributeError       (* a method looked up on None *)
  | ChannelClosed.       (* pika.exceptions.ChannelClosed: a call on a channel
                            that is not open; for close() on a channel whose
                            close is under way, its sibling
                            ChannelAlreadyClosing *)

Inductive result (A : Type) : Type :=
  | Return (a : A)
  | Raise (e : exn).
Arguments Return {A} a.
Arguments Raise {A} e.

(** A pika connection object: only its identity matters. *)
Record Connection : Type := { conn_id : nat }.

(** A pika channel object; [is_open] is the library's own attribute. *)
Record Channel : Type := { chan_id : nat; is_open : bool }.

(** Basic.Ack / Basic.Nack, the two frames a confirm callback receives. *)
Inductive method_name : Type := Basic_Ack | Basic_Nack.

Record MethodFrame : Type := { NAME : method_name; delivery_tag : Z }.

(** [method_frame.method.NAME.split('.')[1].lower()] *)
Definition confirmation_type (f : MethodFrame) : string :=
  match NAME f with
  | Basic_Ack => "ack"
  | Basic_Nack => "nack"
  end.

(** Calls made on the pika objects, in program order. *)
Inductive broker_call : Type :=
  | connection_channel
  | basic_qos (prefetch_count : Z)
  | exchange_declare (exchange exchange_type : string)
  | queue_declare (queue : string)
  | queue_bind (queue exchange routing_key : string)
  | confirm_delivery
  | basic_publish (exchange routing_key body : string)
  | basic_consume (queue : string)
  | basic_cancel (consumer_tag : option nat)
  | basic_nack (tag : Z)
  | basic_ack (tag : Z)
  | channel_close
  | connection_close.

(** ** The object *)

Record RMQueue : Type := {
  _connection : option Connection;
  _channel : option Channel;
  _consumer : option nat;
  _deliveries : list Z;
  _acked : Z;
  _nacked : Z;
  _message_number : Z;
  _rmq_msg : option string;
  _rmq_id : option Z;
  _stopping : bool;
  _exchange : string;
  _exchange_type : string;
  _routing_key : string;
  _url : option string;
  _queue : string
}.

Definition set_connection (c : option Connection) (q : RMQueue) : RMQueue :=
  {| _connection := c; _channel := _channel q; _consumer := _consumer q;
     _deliveries := _deliveries q; _acked := _acked q; _nacked := _nacked q;
     _message_number := _message_number q; _rmq_msg := _rmq_msg q;
     _rmq_id := _rmq_id q; _stopping := _stopping q; _exchange := _exchange q;
     _exchange_type := _exchange_type q; _routing_key := _routing_key q;
     _url := _url q; _queue := _queue q |}.

Definition set_channel (c : option Channel) (q : RMQueue) : RMQueue :=
  {| _connection := _connection q; _channel := c; _consumer := _consumer q;
     _deliveries := _deliveries q; _acked := _acked q; _nacked := _nacked q;
     _message_number := _message_number q; _rmq_msg := _rmq_msg q;
     _rmq_id := _rmq_id q; _stopping := _stopping q; _exchange := _exchange q;
     _exchange_type := _exchange_type q; _routing_key := _routing_key q;
     _url := _url q; _queue := _queue q |}.

Definition set_consumer (c : option nat) (q : RMQueue) : RMQueue :=
  {| _connection := _connection q; _channel := _channel q; _consumer := c;
     _deliveries := _deliveries q; _acked := _acked q; _nacked := _nacked q;
     _message_number := _message_number q; _rmq_msg := _rmq_msg q;
     _rmq_id := _rmq_id q; _stopping := _stopping q; _exchange := _exchange q;
     _exchange_type := _exchange_type q; _routing_key := _routing_key q;
     _url := _url q; _queue := _queue q |}.

(** The four attributes guarded by [_msg_tracking_lock]. *)
Definition set_tracking (d : list Z) (a n m : Z) (q : RMQueue) : RMQueue :=
  {| _connection := _connection q; _channel := _channel q;
     _consumer := _consumer q;
     _deliveries := d; _acked := a; _nacked := n; _message_number := m;
     _rmq_msg := _rmq_msg q;
     _rmq_id := _rmq_id q; _stopping := _stopping q; _exchange := _exchange q;
     _exchange_type := _exchange_type q; _routing_key := _routing_key q;
     _url := _url q; _queue := _queue q |}.

(** The held message: body and acknowledgment handle. *)
Definition set_held (m : option string) (i : option Z) (q : RMQueue) : RMQueue :=
  {| _connection := _connection q; _channel := _channel q;
     _consumer := _consumer q;
     _deliveries := _deliveries q; _acked := _acked q; _nacked := _nacked q;
     _message_number := _message_number q; _rmq_msg := m;
     _rmq_id := i; _stopping := _stopping q; _exchange := _exchange q;
     _exchange_type := _exchange_type q; _routing_key := _routing_key q;
     _url := _url q; _queue := _queue q |}.

Definition set_stopping (b : bool) (q : RMQueue) : RMQueue :=
  {| _connection := _connection q; _channel := _channel q;
     _consumer := _consumer q;
     _deliveries := _deliveries q; _acked := _acked q; _nacked := _nacked q;
     _message_number := _message_number q; _rmq_msg := _rmq_msg q;
     _rmq_id := _rmq_id q; _stopping := b; _exchange := _exchange q;
     _exchange_type := _exchange_type q; _routing_key := _routing_key q;
     _url := _url q; _queue := _queue q |}.

(** ** The world around the object *)

Record World : Type := {
  obj : RMQueue;
  calls : list broker_call;
  now : nat;
  io_alive : bool
}.

Definition upd (f : RMQueue → RMQueue) (w : World) : World :=
  {| obj := f (obj w); calls := calls w; now := now w; io_alive := io_alive w |}.

Definition call (c : broker_call) (w : World) : World :=
  {| obj := obj w; calls := calls w ++ [c]; now := now w;
     io_alive := io_alive w |}.

Definition tick (w : World) : World :=
  {| obj := obj w; calls := calls w; now := S (now w);
     io_alive := io_alive w |}.

Definition kill_io (w : World) : World :=
  {| obj := obj w; calls := calls w; now := now w; io_alive := false |}.

(** ** __init__ *)

(** The nested configuration: config['cloud']['queue']['rmq']. *)
Abbreviation Config := (gmap string (gmap string (gmap string (option string)))).

Definition config_url (config : Config) : option (option string) :=
  cloud ← config !! "cloud";
  queue ← cloud !! "queue";
  queue !! "rmq".

(** [amqp_url] is the Python argument: [None] or a string. *)
Definition init (queue route : string) (amqp_url : option string)
    (config : option Config) : RMQueue :=
  let url :=
    match config with
    | Some cfg => default amqp_url (config_url cfg)
    | None => amqp_url
    end in
  {| _connection := None; _channel := None; _consumer := None;
     _deliveries := []; _acked := 0; _nacked := 0; _message_number := 0;
     _rmq_msg := None; _rmq_id := None; _stopping := false;
     _exchange := "StudioML.topic"; _exchange_type := "topic";
     _routing_key := route; _url := url; _queue := queue |}.

(** The default of the keyword argument: [amqp_url='']. *)
Definition default_amqp_url : option string := Some "".

Definition fresh (q : RMQueue) : World :=
  {| obj := q; calls := []; now := 0%nat; io_alive := true |}.

(** ** Callbacks run on the I/O thread *)

(** on_connection_open, that is open_channel *)
Definition on_connection_open (w : World) : World * result unit :=
  match _connection (obj w) with
  | Some _ => (call connection_channel w, Return ())
  | None => (w, Raise AttributeError)
  end.

(** on_connection_closed *)
Definition on_connection_closed (w : World) : World * result unit :=
  let w := upd (set_channel None) w in
  match _connection (obj w) with
  | Some _ => (w, Return ())
  | None => (w, Raise AttributeError)
  end.

(** on_channel_open, followed by setup_exchange *)
Definition on_channel_open (channel : Channel) (w : World) : World * result unit :=
  let w := upd (set_channel (Some channel)) w in
  let w := call (basic_qos 0) w in
  (call (exchange_declare (_exchange (obj w)) (_exchange_type (obj w))) w,
   Return ()).

(** on_channel_closed *)
Definition on_channel_closed (w : World) : World * result unit :=
  let w := upd (set_channel None) w in
  if _stopping (obj w) then (w, Return ())
  else match _connection (obj w) with
       | Some _ => (call connection_close w, Return ())
       | None => (w, Raise AttributeError)
       end.

(** on_exchange_declareok, that is setup_queue *)
Definition on_exchange_declareok (w : World) : World * result unit :=
  match _channel (obj w) with
  | Some _ => (call (queue_declare (_queue (obj w))) w, Return ())
  | None => (w, Raise AttributeError)
  end.

(** on_queue_declareok *)
Definition on_queue_declareok (w : World) : World * result unit :=
  match _channel (obj w) with
  | Some _ =>
      (call (queue_bind (_queue (obj w)) (_exchange (obj w))
               (_routing_key (obj w))) w,
       Return ())
  | None => (w, Raise AttributeError)
  end.

(** on_bindok *)
Definition on_bindok (w : World) : World * result unit :=
  match _channel (obj w) with
  | Some _ => (call confirm_delivery w, Return ())
  | None => (w, Raise AttributeError)
  end.

(** [list.remove(x)]: drops the first occurrence, ValueError without one. *)
Fixpoint list_remove (x : Z) (l : list Z) : option (list Z) :=
  match l with
  | [] => None
  | y :: l' => if decide (y = x) then Some l' else (y ::.) <$> list_remove x l'
  end.

(** on_delivery_confirmation *)
Definition on_delivery_confirmation (method_frame : MethodFrame) (w : World)
    : World * result unit :=
  let q := obj w in
  let ct := confirmation_type method_frame in
  let acked := if decide (ct = "ack") then _acked q + 1 else _acked q in
  let nacked :=
    if decide (ct = "ack") then _nacked q
    else if decide (ct = "nack") then _nacked q + 1 else _nacked q in
  let w := upd (set_tracking (_deliveries q) acked nacked (_message_number q)) w in
  match list_remove (delivery_tag method_frame) (_deliveries q) with
  | Some d =>
      (upd (set_tracking d acked nacked (_message_number q)) w, Return ())
  | None => (w, Raise ValueError)
  end.

(** One turn of the [while not self._stopping] loop of [run], up to the
    return of [connect()]. *)
Definition run_turn (c : Connection) (w : World) : World * result unit :=
  if _stopping (obj w) then (w, Return ())
  else
    let w := upd (set_connection None) w in
    let w := upd (set_tracking [] 0 0 0) w in
    (upd (set_connection (Some c)) w, Return ()).

(** on_message *)
Definition on_message (tag : Z) (body : string) (w : World)
    : World * result unit :=
  let w :=
    match _channel (obj w) with
    | Some _ => call (basic_cancel (_consumer (obj w))) w
    | None => w
    end in
  let w := upd (set_consumer None) w in
  match _rmq_msg (obj w) with
  | Some _ =>
      match _connection (obj w) with
      | Some _ =>
          match _channel (obj w) with
          | Some _ => (call (basic_nack tag) w, Return ())
          | None => (w, Raise AttributeError)
          end
      | None => (w, Return ())
      end
  | None => (upd (set_held (Some body) (Some tag)) w, Return ())
  end.

(** ** stop, acknowledge, hold, has_next, delete *)

(** close_connection *)
Definition close_connection (w : World) : World * result unit :=
  match _connection (obj w) with
  | Some _ => (call connection_close w, Return ())
  | None => (w, Return ())
  end.

(** close_channel.  [channel.close()] ends [is_open] at once, while
    [_channel] stays set until on_channel_closed runs; on a channel that is
    not open the library refuses the call, and the exception leaves
    [stop] before close_connection. *)
Definition close_channel (w : World) : World * result unit :=
  match _channel (obj w) with
  | Some ch =>
      if is_open ch then
        (upd (set_channel (Some {| chan_id := chan_id ch; is_open := false |}))
           (call channel_close w),
         Return ())
      else (w, Raise ChannelClosed)
  | None => (w, Return ())
  end.

(** stop *)
Definition stop (w : World) : World * result unit :=
  let w := upd (set_stopping true) w in
  match close_channel w with
  | (w, Return _) => close_connection w
  | (w, Raise e) => (w, Raise e)
  end.

Definition acknowledge (ack_id : Z) (w : World) : World * result unit :=
  let w := upd (set_held None None) w in
  match _channel (obj w) with
  | None => (w, Return ())
  | Some _ => (call (basic_ack ack_id) w, Return ())
  end.

Definition hold (ack_id : Z) (minutes : Z) (w : World) : World * result unit :=
  (w, Return ()).

Definition has_next (w : World) : World * result unit := (w, Raise Unsupported).

Definition delete (w : World) : World * result unit := (w, Raise Unsupported).

(** ** The I/O thread seen from a sleeping caller *)

(** What the event loop may run while a caller sleeps: the callbacks above,
    a turn of [run], and pika flipping [is_open] on the channel object. *)
Inductive event : Type :=
  | connection_open
  | connection_closed
  | channel_open (channel : Channel)
  | channel_closed
  | channel_state (open : bool)
  | exchange_declareok
  | queue_declareok
  | bindok
  | delivery_confirmation (method_frame : MethodFrame)
  | run_loop (c : Connection)
  | message (tag : Z) (body : string).

Definition handle (e : event) (w : World) : World * result unit :=
  match e with
  | connection_open => on_connection_open w
  | connection_closed => on_connection_closed w
  | channel_open ch => on_channel_open ch w
  | channel_closed => on_channel_closed w
  | channel_state b =>
      match _channel (obj w) with
      | Some ch =>
          (upd (set_channel (Some {| chan_id := chan_id ch; is_open := b |})) w,
           Return ())
      | None => (w, Return ())
      end
  | exchange_declareok => on_exchange_declareok w
  | queue_declareok => on_queue_declareok w
  | bindok => on_bindok w
  | delivery_confirmation f => on_delivery_confirmation f w
  | run_loop c => run_turn c w
  | message tag body => on_message tag body w
  end.

(** An exception escaping a callback leaves [ioloop.start()] and [run],
    which only catches KeyboardInterrupt: the thread ends. *)
Definition dispatch (w : World) (e : event) : World :=
  if io_alive w then
    match handle e w with
    | (w', Return _) => w'
    | (w', Raise _) => kill_io w'
    end
  else w.

Definition is_reconnect (e : event) : bool :=
  match e with run_loop _ => true | _ => false end.

Definition is_delivery (e : event) : bool :=
  match e with message _ _ => true | _ => false end.

(** ** Callers *)

(** What a caller and the I/O thread may do, [acknowledge] left out. *)
Inductive action : Type :=
  | call_dequeue (timeout : Z)
  | call_enqueue (fuel : nat) (msg : option string) (retries : Z)
  | call_hold (ack_id minutes : Z)
  | call_stop
  | call_has_next
  | call_delete
  | io_event (e : event)
  | call_sleep.

(** The number of dequeue calls in a sequence. *)
Fixpoint dequeues (acts : list action) : nat :=
  match acts with
  | [] => 0
  | call_dequeue _ :: acts => S (dequeues acts)
  | _ :: acts => dequeues acts
  end.

Definition timeout_nonneg (a : action) : Prop :=
  match a with
  | call_dequeue timeout => 0 ≤ timeout
  | _ => True
  end.

(** Everything a caller and the I/O thread may do. *)
Inductive op : Type :=
  | do_action (a : action)
  | do_acknowledge (ack_id : Z)
  | do_clean (fuel : nat) (timeout : Z).

Section Facade.

(** The callbacks the event loop runs during the sleep that starts at each
    clock value. *)
Variable schedule : nat → list event.

(** time.sleep(1) *)
Definition sleep (w : World) : World :=
  tick (foldl dispatch w (schedule (now w))).

(** *** enqueue *)

Definition channel_ready (w : World) : bool :=
  match _channel (obj w) with
  | Some ch => is_open ch
  | None => false
  end.

(** The first [while tries != 0] loop; yields the value of [tries] on
    leaving it.  [fuel] bounds the number of turns. *)
Fixpoint wait_channel (fuel : nat) (tries : Z) (w : World)
    : option (Z * World) :=
  if decide (tries = 0) then Some (tries, w)
  else
    match fuel with
    | O => None
    | S fuel =>
        if channel_ready w then Some (tries, w)
        else wait_channel fuel (tries - 1) (sleep w)
    end.

(** The second [while tries != 0] loop and the final raise. *)
Fixpoint wait_confirm (fuel : nat) (tries : Z) (message_number : Z)
    (w : World) : option (World * result Z) :=
  if decide (tries = 0) then Some (w, Raise PublishUnconfirmed)
  else
    match fuel with
    | O => None
    | S fuel =>
        let w := sleep w in
        if bool_decide (message_number ∈ _deliveries (obj w))
        then wait_confirm fuel (tries - 1) message_number w
        else Some (w, Return message_number)
    end.

(** The publish and the bookkeeping under [_msg_tracking_lock]. *)
Definition publish (body : string) (w : World) : World :=
  let w :=
    call (basic_publish (_exchange (obj w)) (_routing_key (obj w)) body) w in
  let q := obj w in
  let n := _message_number q + 1 in
  upd (set_tracking (_deliveries q ++ [n]) (_acked q) (_nacked q) n) w.

Definition enqueue (fuel : nat) (msg : option string) (retries : Z)
    (w : World) : option (World * result Z) :=
  match _url (obj w) with
  | None => Some (w, Raise ConfigurationError)
  | Some _ =>
      match msg with
      | None => Some (w, Raise InvalidArgument)
      | Some body =>
          match wait_channel fuel retries w with
          | None => None
          | Some (tries, w) =>
              if decide (tries = 0) then Some (w, Raise ChannelUnavailable)
              else
                match _channel (obj w) with
                | None => Some (w, Raise AttributeError)
                | Some _ =>
                    let w := publish body w in
                    wait_confirm fuel retries (_message_number (obj w)) w
                end
          end
      end
  end.

(** *** dequeue *)

(** Whether the consumer registration at the head of a turn goes
    through: it is attempted when no consumer is registered and a channel
    is set, and the library refuses it on a channel that is not open. *)
Definition can_register (w : World) : bool :=
  match _consumer (obj w), _channel (obj w) with
  | None, Some ch => is_open ch
  | _, _ => true
  end.

(** The consumer registration at the head of each turn.  A refused
    [basic_consume] raises before [_consumer] is assigned. *)
Definition ensure_consuming (w : World) : World * result unit :=
  match _consumer (obj w), _channel (obj w) with
  | None, Some ch =>
      if is_open ch then
        (upd (set_consumer (Some (length (calls w))))
           (call (basic_consume (_queue (obj w))) w),
         Return ())
      else (w, Raise ChannelClosed)
  | _, _ => (w, Return ())
  end.

(** [for i in range(timeout + 1)], with [n] turns left. *)
Fixpoint dequeue_loop (n : nat) (i timeout : Z) (w : World)
    : World * result (option (string * option Z)) :=
  match n with
  | O => (w, Return None)
  | S n =>
      match ensure_consuming w with
      | (w, Raise e) => (w, Raise e)
      | (w, Return _) =>
          match _rmq_msg (obj w) with
          | Some m => (w, Return (Some (m, _rmq_id (obj w))))
          | None =>
              if decide (timeout ≤ i) then (w, Return None)
              else dequeue_loop n (i + 1) timeout (sleep w)
          end
      end
  end.

Definition dequeue (timeout : Z) (w : World)
    : World * result (option (string * option Z)) :=
  dequeue_loop (Z.to_nat (timeout + 1)) 0 timeout w.

(** *** Worlds met while waiting *)

(** The world after [k] sleeps of a caller that does nothing else. *)
Fixpoint after (k : nat) (w : World) : World :=
  match k with
  | O => w
  | S k => after k (sleep w)
  end.

(** The world as the [k]-th turn of the dequeue loop finds it, the turns
    before it having registered and slept. *)
Fixpoint poll_world (k : nat) (w : World) : World :=
  match k with
  | O => w
  | S k => poll_world k (sleep (ensure_consuming w).1)
  end.

(** A schedule that carries no delivery. *)
Definition no_delivery : Prop :=
  ∀ t, Forall (λ e, is_delivery e = false) (schedule t).

(** A schedule on which [run] never starts a new connection attempt. *)
Definition no_reconnect : Prop :=
  ∀ t, Forall (λ e, is_reconnect e = false) (schedule t).

(** *** Sequences of calls *)

(** A caller making one [enqueue] call after the other, each given as its
    message and its budget, and going on after an exception. *)
Fixpoint enqueue_seq (fuel : nat) (reqs : list (option string * Z))
    (w : World) : option (World * list (result Z)) :=
  match reqs with
  | [] => Some (w, [])
  | (msg, retries) :: reqs =>
      match enqueue fuel msg retries w with
      | None => None
      | Some (w, r) =>
          match enqueue_seq fuel reqs w with
          | None => None
          | Some (w, rs) => Some (w, r :: rs)
          end
      end
  end.

(** The world after an action, and what it returned if it is a dequeue. *)
Definition perform (a : action) (w : World)
    : option (World * list (result (option (string * option Z)))) :=
  match a with
  | call_dequeue timeout =>
      let '(w, r) := dequeue timeout w in Some (w, [r])
  | call_enqueue fuel msg retries =>
      match enqueue fuel msg retries w with
      | Some (w, _) => Some (w, [])
      | None => None
      end
  | call_hold ack_id minutes => Some ((hold ack_id minutes w).1, [])
  | call_stop => Some ((stop w).1, [])
  | call_has_next => Some ((has_next w).1, [])
  | call_delete => Some ((delete w).1, [])
  | io_event e => Some (dispatch w e, [])
  | call_sleep => Some (sleep w, [])
  end.

(** A sequence of actions, with the results of its dequeues in order. *)
Fixpoint perform_all (acts : list action) (w : World)
    : option (World * list (result (option (string * option Z)))) :=
  match acts with
  | [] => Some (w, [])
  | a :: acts =>
      match perform a w with
      | None => None
      | Some (w, rs) =>
          match perform_all acts w with
          | None => None
          | Some (w, rs') => Some (w, rs ++ rs')
          end
      end
  end.

(** *** clean *)

(** [while True: msg = self.dequeue(timeout=timeout); if not msg: break].
    A returned pair is never falsy; [fuel] bounds the number of turns. *)
Fixpoint clean (fuel : nat) (timeout : Z) (w : World)
    : option (World * result unit) :=
  match fuel with
  | O => None
  | S fuel =>
      match dequeue timeout w with
      | (w, Return None) => Some (w, Return ())
      | (w, Return (Some _)) => clean fuel timeout w
      | (w, Raise e) => Some (w, Raise e)
      end
  end.

(** A sequence of operations, with the world it ends in. *)
Fixpoint run_ops (ops : list op) (w : World) : option World :=
  match ops with
  | [] => Some w
  | do_action a :: ops =>
      match perform a w with
      | Some (w, _) => run_ops ops w
      | None => None
      end
  | do_acknowledge ack_id :: ops => run_ops ops (acknowledge ack_id w).1
  | do_clean fuel timeout :: ops =>
      match clean fuel timeout w with
      | Some (w, _) => run_ops ops w
      | None => None
      end
  end.

End Facade.

(** ** Observations *)

Definition held (w : World) : option string * option Z :=
  (_rmq_msg (obj w), _rmq_id (obj w)).

(** The numbers handed back by a sequence of [enqueue] calls. *)
Definition returned (outs : list (result Z)) : list Z :=
  omap (λ r, match r with Return n => Some n | Raise _ => None end) outs.

(** [numbered base outs]: every publish takes the number after the last
    one, starting after [base]; a returned number is the one its own publish
    took. *)
Fixpoint numbered (base : Z) (outs : list (result Z)) : Prop :=
  match outs with
  | [] => True
  | Return n :: outs => n = base + 1 ∧ numbered (base + 1) outs
  | Raise PublishUnconfirmed :: outs => numbered (base + 1) outs
  | Raise _ :: outs => numbered base outs
  end.

(** get_name *)
Definition get_name (w : World) : string := _queue (obj w).

(** What the instance is bound to: exchange, its kind, queue, routing key
    and URL. *)
Definition binding (w : World)
    : string * string * string * string * option string :=
  (_exchange (obj w), _exchange_type (obj w), _queue (obj w),
   _routing_key (obj w), _url (obj w)).

(** The four attributes guarded by [_msg_tracking_lock]. *)
Definition tracking (w : World) : list Z * Z * Z * Z :=
  (_deliveries (obj w), _acked (obj w), _nacked (obj w),
   _message_number (obj w)).

(** The bookkeeping of publishes: pending numbers are distinct and were
    handed out, the counters are not negative, and, while the I/O thread
    runs, every publish is either pending, acked or nacked. *)
Definition tracking_ok (w : World) : Prop :=
  NoDup (_deliveries (obj w)) ∧
  Forall (λ n, 1 ≤ n ≤ _message_number (obj w)) (_deliveries (obj w)) ∧
  0 ≤ _acked (obj w) ∧ 0 ≤ _nacked (obj w) ∧ 0 ≤ _message_number (obj w) ∧
  (io_alive w = true →
   _acked (obj w) + _nacked (obj w) + Z.of_nat (length (_deliveries (obj w)))
   = _message_number (obj w)).

(** The callbacks of a channel set-up, in the order pika runs them. *)
Definition handshake (channel : Channel) : list event :=
  [channel_open channel; exchange_declareok; queue_declareok; bindok].

Definition is_channel_open (e : event) : bool :=
  match e with channel_open _ => true | _ => false end.

(** Every event but a confirmation and a turn of [run]. *)
Definition is_tracking_event (e : event) : bool :=
  match e with
  | delivery_confirmation _ | run_loop _ => true
  | _ => false
  end.

(** ** Concrete objects used in the examples *)

Definition quiet : nat → list event := λ _, [].

Definition chan1 : Channel := {| chan_id := 1; is_open := true |}.

Definition conn1 : Connection := {| conn_id := 1 |}.

(** A queue built with an explicit URL, connected, with a ready channel. *)
Definition ready_queue : World :=
  upd (set_connection (Some conn1))
    (upd (set_channel (Some chan1))
       (fresh (init "work" "rk" (Some "amqp://broker/") None))).

(** The same queue holding the delivery tagged 5. *)
Definition holding_queue : World :=
  upd (set_held (Some "first") (Some 5)) ready_queue.

(** The ready queue after [stop]: the channel is still set, and closing. *)
Definition stopped_queue : World := (stop ready_queue).1.

(** The holding queue after one more delivery and [stop]: a message held,
    no consumer, the channel set and closing. *)
Definition stopped_holding : World :=
  (stop (on_message 7 "second" holding_queue).1).1.

(** A queue with a URL whose channel was never opened. *)
Definition offline_queue : World :=
  fresh (init "work" "rk" (Some "amqp://broker/") None).

(** A queue built with the defaults: no [amqp_url], no [config]. *)
Definition default_queue : World :=
  fresh (init "work" "rk" default_amqp_url None).

(** A queue built with [amqp_url=None]. *)
Definition unconfigured_queue : World := fresh (init "work" "rk" None None).

(** A delivery handed over during the second sleep. *)
Definition deliver_at_1 : nat → list event :=
  λ t, if decide (t = 1%nat) then [message 9 "job"] else [].

(** The broker confirms publish number 1 during the first sleep. *)
Definition ack_1_at_0 : nat → list event :=
  λ t, if decide (t = 0%nat)
       then [delivery_confirmation {| NAME := Basic_Ack; delivery_tag := 1 |}]
       else [].

(** The broker confirms publish number 2 during the second sleep, and
    never confirms number 1. *)
Definition ack_2_at_1 : nat → list event :=
  λ t, if decide (t = 1%nat)
       then [delivery_confirmation {| NAME := Basic_Ack; delivery_tag := 2 |}]
       else [].

(** The broker confirms one publish per sleep, in order. *)
Definition ack_in_turn : nat → list event :=
  λ t, [delivery_confirmation {| NAME := Basic_Ack; delivery_tag := Z.of_nat t + 1 |}].

(** The configuration [{'cloud': {'queue': {'rmq': None}}}]. *)
Definition null_rmq_config : Config :=
  {[ "cloud" := {[ "queue" := {[ "rmq" := None ]} ]} ]}.

(** A session: connect, open the channel, publish, receive, dequeue,
    acknowledge, drain, stop, and a turn of [run] after the stop. *)
Definition busy_session : list op :=
  [do_action (io_event (run_loop conn1));
   do_action (io_event (channel_open chan1));
   do_action (call_enqueue 2 (Some "a") 1);
   do_action (io_event (message 7 "x"));
   do_action (call_dequeue 0);
   do_acknowledge 7;
   do_clean 1 0;
   do_action call_stop;
   do_action (io_event (run_loop conn1));
   do_action (call_enqueue 2 (Some "b") 1)].

Definition two_requests : list (option string * Z) :=
  [(Some "a", 1); (Some "b", 1)].

(** * Properties *)

(** ** list.remove *)

Lemma list_remove_elem (x : Z) (l : list Z) :
  x ∈ l →
  (∃ l1 l2, l = l1 ++ x :: l2 ∧ (x ∉ l1) ∧ list_remove x l = Some (l1 ++ l2)).
Proof.
  induction l as [|y l IH]; intros Hin.
  - by apply elem_of_nil in Hin.
  - simpl. destruct (decide (y = x)) as [->|Hne].
    + exists [], l. split_and!; [done | apply not_elem_of_nil | done].
    + apply elem_of_cons in Hin as [->|Hin]; [done|].
      destruct (IH Hin) as (l1 & l2 & -> & Hnot & Hrem).
      exists (y :: l1), l2. rewrite Hrem. split_and!; [done | | done].
      apply not_elem_of_cons. split; [congruence | done].
Qed.

Lemma list_remove_absent (x : Z) (l : list Z) :
  x ∉ l → list_remove x l = None.
Proof.
  induction l as [|y l IH]; intros Hnot; [done|].
  apply not_elem_of_cons in Hnot as [Hne Hnot]. simpl.
  destruct (decide (y = x)); [congruence|]. by rewrite IH.
Qed.

(** ** The delivery tracker *)

(** C8. A confirmation whose tag [t] is pending never takes the ValueError
    branch of the removal: the handler returns normally, drops the (first)
    occurrence of exactly [t] from the pending list, which gets one shorter,
    bumps [_acked] alone on a Basic.Ack and [_nacked] alone on a Basic.Nack,
    and leaves the publish counter as it was. *)
Theorem on_delivery_confirmation_pending (f : MethodFrame) (w : World) :
  delivery_tag f ∈ _deliveries (obj w) →
  (∃ l1 l2 w',
    on_delivery_confirmation f w = (w', Return ()) ∧
    _deliveries (obj w) = l1 ++ delivery_tag f :: l2 ∧
    (delivery_tag f ∉ l1) ∧
    _deliveries (obj w') = l1 ++ l2 ∧
    S (length (_deliveries (obj w'))) = length (_deliveries (obj w)) ∧
    _message_number (obj w') = _message_number (obj w) ∧
    match NAME f with
    | Basic_Ack =>
        _acked (obj w') = _acked (obj w) + 1 ∧ _nacked (obj w') = _nacked (obj w)
    | Basic_Nack =>
        _acked (obj w') = _acked (obj w) ∧ _nacked (obj w') = _nacked (obj w) + 1
    end).
Proof.
  intros Hin.
  destruct (list_remove_elem _ _ Hin) as (l1 & l2 & Hl & Hnot & Hrem).
  exists l1, l2. unfold on_delivery_confirmation. rewrite Hrem.
  eexists. split; [reflexivity|]. simpl.
  split_and!; try done.
  - rewrite Hl, !length_app. simpl. lia.
  - unfold confirmation_type. destruct (NAME f); simpl; split; reflexivity.
Qed.

(** The pending tag 2 of three is confirmed positively. *)
Lemma on_delivery_confirmation_pending_witness :
  ∃ l1 l2 w',
    let f := {| NAME := Basic_Ack; delivery_tag := 2 |} in
    let w := upd (set_tracking [1; 2; 3] 0 0 3) ready_queue in
    on_delivery_confirmation f w = (w', Return ()) ∧
    _deliveries (obj w) = l1 ++ delivery_tag f :: l2 ∧
    (delivery_tag f ∉ l1) ∧
    _deliveries (obj w') = l1 ++ l2 ∧
    S (length (_deliveries (obj w'))) = length (_deliveries (obj w)) ∧
    _message_number (obj w') = _message_number (obj w) ∧
    _acked (obj w') = _acked (obj w) + 1 ∧ _nacked (obj w') = _nacked (obj w).
Proof.
  apply (on_delivery_confirmation_pending
           {| NAME := Basic_Ack; delivery_tag := 2 |}
           (upd (set_tracking [1; 2; 3] 0 0 3) ready_queue)).
  simpl. apply list_elem_of_In. simpl. auto.
Defined.

(** Outside the precondition the removal raises, after the counter was
    already bumped. *)
Lemma on_delivery_confirmation_unknown (f : MethodFrame) (w : World) :
  delivery_tag f ∉ _deliveries (obj w) →
  (∃ w', on_delivery_confirmation f w = (w', Raise ValueError) ∧
         _deliveries (obj w') = _deliveries (obj w) ∧
         _acked (obj w') + _nacked (obj w') = _acked (obj w) + _nacked (obj w) + 1).
Proof.
  intros Hnot. unfold on_delivery_confirmation.
  rewrite (list_remove_absent _ _ Hnot). eexists. split; [reflexivity|].
  simpl. split; [done|]. unfold confirmation_type.
  destruct (NAME f); simpl; lia.
Qed.

(** ** The consumer gate *)

(** C6. [acknowledge] empties the held slot, body and handle, whatever the
    channel is; it returns None in both cases, and the only broker call it
    makes is the basic_ack of the handle, made exactly when a channel
    exists. *)
Theorem acknowledge_clears_held (ack_id : Z) (w : World) :
  let w' := (acknowledge ack_id w).1 in
  (acknowledge ack_id w).2 = Return () ∧
  _rmq_msg (obj w') = None ∧
  _rmq_id (obj w') = None ∧
  calls w' = calls w ++
    match _channel (obj w) with
    | Some _ => [basic_ack ack_id]
    | None => []
    end.
Proof.
  unfold acknowledge. simpl.
  destruct (_channel (obj w)); simpl; split_and!; try done.
  by rewrite app_nil_r.
Qed.

(** ** The held slot under the callbacks *)

Ltac unfold_handlers :=
  unfold on_connection_open, on_connection_closed, on_channel_open,
    on_channel_closed, on_exchange_declareok, on_queue_declareok, on_bindok,
    on_delivery_confirmation, run_turn, on_message; simpl.

Ltac case_handler :=
  repeat match goal with
    | |- context [match ?x with _ => _ end] =>
        lazymatch x with
        | context [match _ with _ => _ end] => fail
        | _ => destruct x eqn:?; simpl in *
        end
    end; try done; try congruence.

(** No callback replaces or clears a held message. *)
Lemma handle_held (e : event) (w : World) :
  is_Some (_rmq_msg (obj w)) → held (handle e w).1 = held w.
Proof.
  intros [m Hm]. unfold held.
  destruct e; simpl;
    unfold_handlers; case_handler.
Qed.

(** Only a delivery fills an empty slot. *)
Lemma handle_held_no_delivery (e : event) (w : World) :
  is_delivery e = false → held (handle e w).1 = held w.
Proof.
  intros He. unfold held.
  destruct e; try discriminate He; simpl;
    unfold_handlers; case_handler.
Qed.

Lemma dispatch_held_via (P : event → World → Prop) (e : event) (w : World) :
  (P e w → held (handle e w).1 = held w) → P e w → held (dispatch w e) = held w.
Proof.
  intros H HP. unfold dispatch. destruct (io_alive w); [|done].
  specialize (H HP). destruct (handle e w) as [w' [[]|x]]; simpl in *; done.
Qed.

Lemma dispatch_held (e : event) (w : World) :
  is_Some (_rmq_msg (obj w)) → held (dispatch w e) = held w.
Proof.
  apply (dispatch_held_via (λ _ w, is_Some (_rmq_msg (obj w)))), handle_held.
Qed.

Lemma dispatch_held_no_delivery (e : event) (w : World) :
  is_delivery e = false → held (dispatch w e) = held w.
Proof.
  apply (dispatch_held_via (λ e _, is_delivery e = false)),
    handle_held_no_delivery.
Qed.

Lemma foldl_dispatch_held (es : list event) (w : World) :
  is_Some (_rmq_msg (obj w)) → held (foldl dispatch w es) = held w.
Proof.
  revert w. induction es as [|e es IH]; intros w Hm; [done|]. simpl.
  pose proof (dispatch_held e w Hm) as He.
  rewrite IH, He; [done|].
  unfold held in He. injection He as -> _. done.
Qed.

Lemma foldl_dispatch_held_no_delivery (es : list event) (w : World) :
  Forall (λ e, is_delivery e = false) es → held (foldl dispatch w es) = held w.
Proof.
  intros Hes. revert w. induction Hes as [|e es He _ IH]; intros w; [done|].
  simpl. by rewrite IH, dispatch_held_no_delivery.
Qed.

(** The callbacks never touch the caller's clock. *)
Lemma handle_now (e : event) (w : World) : now (handle e w).1 = now w.
Proof.
  destruct e; simpl;
    unfold_handlers; case_handler.
Qed.

Lemma dispatch_now (e : event) (w : World) : now (dispatch w e) = now w.
Proof.
  unfold dispatch. destruct (io_alive w); [|done].
  pose proof (handle_now e w) as H.
  destruct (handle e w) as [w' [[]|x]]; simpl in *; done.
Qed.

Lemma foldl_dispatch_now (es : list event) (w : World) :
  now (foldl dispatch w es) = now w.
Proof.
  revert w. induction es as [|e es IH]; intros w; [done|]. simpl.
  by rewrite IH, dispatch_now.
Qed.

Section FacadeFacts.

Variable schedule : nat → list event.

Lemma sleep_now (w : World) : now (sleep schedule w) = S (now w).
Proof. unfold sleep. simpl. by rewrite foldl_dispatch_now. Qed.

Lemma sleep_held (w : World) :
  is_Some (_rmq_msg (obj w)) → held (sleep schedule w) = held w.
Proof. intros Hm. unfold sleep. by apply foldl_dispatch_held. Qed.

Lemma sleep_held_no_delivery (w : World) :
  no_delivery schedule → held (sleep schedule w) = held w.
Proof. intros Hs. unfold sleep. by apply foldl_dispatch_held_no_delivery. Qed.

Lemma ensure_consuming_outcome (w : World) :
  (ensure_consuming w).2
  = if can_register w then Return () else Raise ChannelClosed.
Proof.
  unfold ensure_consuming, can_register.
  destruct (_consumer (obj w)), (_channel (obj w)) as [ch|]; try done.
  by destruct (is_open ch).
Qed.

(** A refused registration leaves everything as it was. *)
Lemma ensure_consuming_refused (w : World) :
  can_register w = false → ensure_consuming w = (w, Raise ChannelClosed).
Proof.
  unfold ensure_consuming, can_register.
  destruct (_consumer (obj w)), (_channel (obj w)) as [ch|]; try done.
  by intros ->.
Qed.

Lemma ensure_consuming_accepted (w : World) :
  can_register w = true →
  ensure_consuming w = ((ensure_consuming w).1, Return ()).
Proof.
  intros Hc. pose proof (ensure_consuming_outcome w) as H. rewrite Hc in H.
  by destruct (ensure_consuming w) as [w1 r]; simpl in *; subst.
Qed.

Lemma ensure_consuming_held (w : World) :
  held (ensure_consuming w).1 = held w.
Proof. unfold ensure_consuming, held. case_handler. Qed.

Lemma ensure_consuming_now (w : World) : now (ensure_consuming w).1 = now w.
Proof. unfold ensure_consuming. case_handler. Qed.

Lemma poll_world_now (k : nat) (w : World) :
  now (poll_world schedule k w) = (now w + k)%nat.
Proof.
  revert w. induction k as [|k IH]; intros w; simpl; [lia|].
  rewrite IH, sleep_now, ensure_consuming_now. lia.
Qed.

Lemma poll_world_held_no_delivery (k : nat) (w : World) :
  no_delivery schedule → held (poll_world schedule k w) = held w.
Proof.
  intros Hs. revert w. induction k as [|k IH]; intros w; simpl; [done|].
  by rewrite IH, sleep_held_no_delivery, ensure_consuming_held.
Qed.

Lemma ensure_consuming_msg (w : World) :
  _rmq_msg (obj (ensure_consuming w).1) = _rmq_msg (obj w).
Proof. exact (f_equal fst (ensure_consuming_held w)). Qed.

Lemma ensure_consuming_id (w : World) :
  _rmq_id (obj (ensure_consuming w).1) = _rmq_id (obj w).
Proof. exact (f_equal snd (ensure_consuming_held w)). Qed.

(** One turn of the loop whose registration goes through. *)
Lemma dequeue_loop_turn (n : nat) (i timeout : Z) (w : World) :
  can_register w = true →
  dequeue_loop schedule (S n) i timeout w
  = match _rmq_msg (obj w) with
    | Some m => ((ensure_consuming w).1, Return (Some (m, _rmq_id (obj w))))
    | None =>
        if decide (timeout ≤ i) then ((ensure_consuming w).1, Return None)
        else dequeue_loop schedule n (i + 1) timeout
               (sleep schedule (ensure_consuming w).1)
    end.
Proof.
  intros Hc. cbn [dequeue_loop]. rewrite (ensure_consuming_accepted w Hc).
  by rewrite ensure_consuming_msg, ensure_consuming_id.
Qed.

(** One turn of the loop whose registration is refused. *)
Lemma dequeue_loop_refused (n : nat) (i timeout : Z) (w : World) :
  can_register w = false →
  dequeue_loop schedule (S n) i timeout w = (w, Raise ChannelClosed).
Proof.
  intros Hc. cbn [dequeue_loop]. by rewrite (ensure_consuming_refused w Hc).
Qed.

(** The loop gives up after the last of its turns found the slot empty. *)
Lemma dequeue_loop_empty (timeout : Z) (r : nat) (i : Z) (w : World) :
  timeout - i = Z.of_nat r →
  (∀ k, (k ≤ r)%nat → can_register (poll_world schedule k w) = true) →
  (∀ k, (k ≤ r)%nat → _rmq_msg (obj (poll_world schedule k w)) = None) →
  dequeue_loop schedule (S r) i timeout w
  = ((ensure_consuming (poll_world schedule r w)).1, Return None).
Proof.
  revert i w. induction r as [|r IH]; intros i w Hr Hcan Hnone;
    pose proof (Hnone 0%nat ltac:(lia)) as H0; simpl in H0;
    rewrite dequeue_loop_turn by (apply (Hcan 0%nat); lia); rewrite H0.
  - destruct (decide (timeout ≤ i)); [done | lia].
  - destruct (decide (timeout ≤ i)); [lia|].
    apply IH; [lia | |].
    + intros k Hk. apply (Hcan (S k)). lia.
    + intros k Hk. apply (Hnone (S k)). lia.
Qed.

(** The loop returns at the first turn that finds a message. *)
Lemma dequeue_loop_found (timeout : Z) (m : string) (k r : nat) (i : Z)
    (w : World) :
  timeout - i = Z.of_nat r → (k ≤ r)%nat →
  (∀ j, (j ≤ k)%nat → can_register (poll_world schedule j w) = true) →
  (∀ j, (j < k)%nat → _rmq_msg (obj (poll_world schedule j w)) = None) →
  _rmq_msg (obj (poll_world schedule k w)) = Some m →
  dequeue_loop schedule (S r) i timeout w
  = ((ensure_consuming (poll_world schedule k w)).1,
     Return (Some (m, _rmq_id (obj (poll_world schedule k w))))).
Proof.
  revert r i w. induction k as [|k IH]; intros r i w Hr Hk Hcan Hnone Hm;
    rewrite dequeue_loop_turn by (apply (Hcan 0%nat); lia).
  - simpl in Hm. by rewrite Hm.
  - destruct r as [|r]; [lia|].
    pose proof (Hnone 0%nat ltac:(lia)) as H0. simpl in H0. rewrite H0.
    destruct (decide (timeout ≤ i)); [lia|].
    apply IH; [lia | lia | | | done].
    + intros j Hj. apply (Hcan (S j)). lia.
    + intros j Hj. apply (Hnone (S j)). lia.
Qed.

(** With a message held, a timeout that is not negative and a
    registration that goes through, the first turn returns it. *)
Lemma dequeue_held (timeout : Z) (m : string) (w : World) :
  0 ≤ timeout → can_register w = true → _rmq_msg (obj w) = Some m →
  dequeue schedule timeout w
  = ((ensure_consuming w).1, Return (Some (m, _rmq_id (obj w)))).
Proof.
  intros Ht Hc Hm. unfold dequeue.
  replace (Z.to_nat (timeout + 1)) with (S (Z.to_nat timeout)) by lia.
  by rewrite dequeue_loop_turn, Hm.
Qed.

(** With a timeout that is not negative and a registration that is
    refused, the first turn raises, whatever the slot holds. *)
Lemma dequeue_refused (timeout : Z) (w : World) :
  0 ≤ timeout → can_register w = false →
  dequeue schedule timeout w = (w, Raise ChannelClosed).
Proof.
  intros Ht Hc. unfold dequeue.
  replace (Z.to_nat (timeout + 1)) with (S (Z.to_nat timeout)) by lia.
  by apply dequeue_loop_refused.
Qed.

End FacadeFacts.

(** ** The consumer gate, on delivery *)

(** A delivery leaves the channel as it is and forgets the consumer. *)
Lemma on_message_channel (tag : Z) (body : string) (w : World) :
  _channel (obj (on_message tag body w).1) = _channel (obj w) ∧
  _consumer (obj (on_message tag body w).1) = None.
Proof.
  unfold on_message. cbn zeta.
  destruct (_channel (obj w)) eqn:Hch, (_rmq_msg (obj w)) eqn:Hm,
    (_connection (obj w)) eqn:Hc; simpl; rewrite ?Hm; simpl;
    rewrite ?Hc; simpl; rewrite ?Hch; simpl; done.
Qed.

(** C1. pika hands a delivery to the consumer callback from the event loop
    of the connection that [run] stored, on the open channel the consumer
    was registered on.  Such a delivery, arriving while a message is held,
    is cancelled and negatively acknowledged, leaves the held body and
    handle as they were, and is never what [dequeue] returns: the slot
    never holds a second message.  Arriving while the slot is empty, it
    becomes the held message.  Either way the callback returns normally
    and forgets the consumer registration. *)
Theorem on_message_gate (tag : Z) (body : string) (w : World) :
  is_Some (_connection (obj w)) → channel_ready w = true →
  let w' := (on_message tag body w).1 in
  (on_message tag body w).2 = Return () ∧
  _consumer (obj w') = None ∧
  match _rmq_msg (obj w) with
  | None =>
      held w' = (Some body, Some tag) ∧
      calls w' = calls w ++ [basic_cancel (_consumer (obj w))]
  | Some m =>
      held w' = held w ∧
      calls w' = calls w ++ [basic_cancel (_consumer (obj w)); basic_nack tag] ∧
      (∀ schedule timeout, 0 ≤ timeout →
         (dequeue schedule timeout w').2 = Return (Some (m, _rmq_id (obj w))))
  end.
Proof.
  intros [c Hc] Hready w'.
  destruct (on_message_channel tag body w) as [Hch Hco]. fold w' in Hch, Hco.
  unfold channel_ready in Hready.
  destruct (_channel (obj w)) as [ch|] eqn:Hch0; [|done].
  assert (Hreg : can_register w' = true).
  { unfold can_register. by rewrite Hco, Hch. }
  clear Hch Hco. revert Hreg. unfold w', on_message. cbn zeta.
  rewrite Hch0. simpl. rewrite Hc, Hch0.
  destruct (_rmq_msg (obj w)) as [m|] eqn:Hm; simpl; intros Hreg.
  - split_and!; try done.
    + by rewrite <- app_assoc.
    + intros schedule timeout Ht.
      rewrite (dequeue_held schedule timeout m); [done | done | done |].
      simpl. exact Hm.
  - split_and!; done.
Qed.

(** Two deliveries in a row on the ready queue: the first is held, the
    second is cancelled and nacked, and [dequeue] returns the first. *)
Lemma on_message_gate_witness :
  held (on_message 7 "second" holding_queue).1 = (Some "first", Some 5) ∧
  (dequeue quiet 3 (on_message 7 "second" holding_queue).1).2
  = Return (Some ("first", Some 5)) ∧
  calls (on_message 7 "second" holding_queue).1
  = [basic_cancel None; basic_nack 7] ∧
  held (on_message 5 "first" ready_queue).1 = (Some "first", Some 5).
Proof.
  destruct (on_message_gate 7 "second" holding_queue)
    as (_ & _ & Hh & Hc & Hd); [simpl; eauto | reflexivity |].
  destruct (on_message_gate 5 "first" ready_queue)
    as (_ & _ & Hh' & _); [simpl; eauto | reflexivity |].
  split_and!; [exact Hh | apply (Hd quiet 3); lia | exact Hc | exact Hh'].
Defined.

(** ** dequeue *)

(** C7, as stated, fails: after [stop] the channel is still set but no
    longer open, and a [dequeue] that has to register a consumer raises
    the library's ChannelClosed out of [basic_consume], with nothing held
    and nothing delivered. *)
Lemma dequeue_after_stop_raises :
  _rmq_msg (obj stopped_queue) = None ∧
  no_delivery quiet ∧
  dequeue quiet 0 stopped_queue = (stopped_queue, Raise ChannelClosed).
Proof.
  split_and!; [reflexivity | intros t; constructor | reflexivity].
Qed.

(** C7, amended to polls whose consumer registration is not refused (no
    turn has to register on a channel that is set but not open).  For a
    timeout [N >= 0], [dequeue] on an empty slot under a schedule without
    deliveries then returns None, as a value and not as an exception,
    after exactly [N] sleeps; and whenever some turn [k <= N] is the first
    to find a held message, the call returns that body and handle at once,
    after the [k] sleeps already spent. *)
Theorem dequeue_polls (schedule : nat → list event) (N : Z) (w : World) :
  0 ≤ N →
  (_rmq_msg (obj w) = None → no_delivery schedule →
   (∀ k, (k ≤ Z.to_nat N)%nat →
      can_register (poll_world schedule k w) = true) →
   ∃ w', dequeue schedule N w = (w', Return None) ∧
         now w' = (now w + Z.to_nat N)%nat) ∧
  (∀ k m, (k ≤ Z.to_nat N)%nat →
     (∀ j, (j ≤ k)%nat → can_register (poll_world schedule j w) = true) →
     (∀ j, (j < k)%nat → _rmq_msg (obj (poll_world schedule j w)) = None) →
     _rmq_msg (obj (poll_world schedule k w)) = Some m →
     ∃ w', dequeue schedule N w
           = (w', Return (Some (m, _rmq_id (obj (poll_world schedule k w))))) ∧
           now w' = (now w + k)%nat ∧
           held w' = held (poll_world schedule k w)).
Proof.
  intros HN. unfold dequeue.
  replace (Z.to_nat (N + 1)) with (S (Z.to_nat N)) by lia. split.
  - intros Hm Hs Hcan. eexists. split.
    + apply dequeue_loop_empty; [lia | done |]. intros k _.
      pose proof (poll_world_held_no_delivery schedule k w Hs) as Hh.
      unfold held in Hh. injection Hh as -> _. done.
    + by rewrite ensure_consuming_now, poll_world_now.
  - intros k m Hk Hcan Hnone Hm. eexists. split_and!.
    + apply dequeue_loop_found; [lia | done | done | done | done].
    + by rewrite ensure_consuming_now, poll_world_now.
    + apply ensure_consuming_held.
Qed.

Lemma dequeue_polls_witness :
  (∃ w', dequeue quiet 3 ready_queue = (w', Return None) ∧ now w' = 3%nat) ∧
  (∃ w', dequeue deliver_at_1 3 ready_queue = (w', Return (Some ("job", Some 9))) ∧
         now w' = 2%nat).
Proof.
  split.
  - destruct (dequeue_polls quiet 3 ready_queue ltac:(lia)) as [H _].
    apply H; [reflexivity | intros t; constructor |].
    intros k Hk. destruct k as [|[|[|[|k]]]]; [reflexivity.. | simpl in Hk; lia].
  - destruct (dequeue_polls deliver_at_1 3 ready_queue ltac:(lia)) as [_ H].
    destruct (H 2%nat "job") as (w' & Hd & Hn & _).
    + simpl. lia.
    + intros j Hj. destruct j as [|[|[|j]]]; [reflexivity.. | lia].
    + intros j Hj. destruct j as [|[|j]]; [reflexivity | reflexivity | lia].
    + reflexivity.
    + exists w'. split; [exact Hd | exact Hn].
Defined.

(** ** enqueue *)

Section EnqueueFacts.

Variable schedule : nat → list event.

Lemma after_now (k : nat) (w : World) : now (after schedule k w) = (now w + k)%nat.
Proof.
  revert w. induction k as [|k IH]; intros w; simpl; [lia|].
  rewrite IH, sleep_now. lia.
Qed.

Lemma wait_channel_eq (fuel : nat) (tries : Z) (w : World) :
  wait_channel schedule fuel tries w =
  if decide (tries = 0) then Some (tries, w)
  else
    match fuel with
    | O => None
    | S fuel =>
        if channel_ready w then Some (tries, w)
        else wait_channel schedule fuel (tries - 1) (sleep schedule w)
    end.
Proof. destruct fuel; reflexivity. Qed.

Lemma wait_confirm_eq (fuel : nat) (tries n : Z) (w : World) :
  wait_confirm schedule fuel tries n w =
  if decide (tries = 0) then Some (w, Raise PublishUnconfirmed)
  else
    match fuel with
    | O => None
    | S fuel =>
        if bool_decide (n ∈ _deliveries (obj (sleep schedule w)))
        then wait_confirm schedule fuel (tries - 1) n (sleep schedule w)
        else Some (sleep schedule w, Return n)
    end.
Proof. destruct fuel; reflexivity. Qed.

(** [n] polls, none of which finds the channel open, use up the budget. *)
Lemma wait_channel_exhaust (n fuel : nat) (w : World) :
  (n ≤ fuel)%nat →
  (∀ k, (k < n)%nat → channel_ready (after schedule k w) = false) →
  wait_channel schedule fuel (Z.of_nat n) w = Some (0, after schedule n w).
Proof.
  revert fuel w. induction n as [|n IH]; intros fuel w Hf Hno.
  - by rewrite wait_channel_eq.
  - rewrite wait_channel_eq. destruct (decide (Z.of_nat (S n) = 0)); [lia|].
    destruct fuel as [|fuel]; [lia|].
    rewrite (Hno 0%nat ltac:(lia) : channel_ready w = false).
    replace (Z.of_nat (S n) - 1) with (Z.of_nat n) by lia.
    apply IH; [lia|]. intros k Hk. apply (Hno (S k)). lia.
Qed.





Lemma enqueue_url_none (fuel : nat) (msg : option string) (retries : Z)
    (w : World) :
  _url (obj w) = None →
  enqueue schedule fuel msg retries w = Some (w, Raise ConfigurationError).
Proof. intros Hu. unfold enqueue. by rewrite Hu. Qed.

Lemma channel_ready_Some (w : World) :
  channel_ready w = true → is_Some (_channel (obj w)).
Proof. unfold channel_ready. destruct (_channel (obj w)); [eauto | done]. Qed.

End EnqueueFacts.






(** C9. With the URL set and a message given, [enqueue] with [retries = 0]
    raises ChannelUnavailable whatever the channel is: the world is left as
    it was, so nothing was published and no sleep was taken. *)
Theorem enqueue_zero_retries (schedule : nat → list event) (fuel : nat)
    (body url : string) (w : World) :
  _url (obj w) = Some url →
  enqueue schedule fuel (Some body) 0 w = Some (w, Raise ChannelUnavailable).
Proof.
  intros Hu. unfold enqueue. rewrite Hu, wait_channel_eq.
  by destruct (decide (0 = 0)).
Qed.

(** On a queue whose channel is open, with no fuel at all. *)
Lemma enqueue_zero_retries_witness :
  channel_ready ready_queue = true ∧
  enqueue ack_1_at_0 0 (Some "m") 0 ready_queue
  = Some (ready_queue, Raise ChannelUnavailable).
Proof.
  split; [reflexivity|].
  apply (enqueue_zero_retries ack_1_at_0 0 "m" "amqp://broker/" ready_queue).
  reflexivity.
Defined.

(** Built without [amqp_url], and without [config] or with one that has no
    value at cloud.queue.rmq, the object carries the empty string, not
    None. *)
Lemma init_no_url_supplied (queue route : string) (config : option Config) :
  (config ≫= config_url) = None →
  _url (init queue route default_amqp_url config) = Some "".
Proof.
  unfold init. destruct config as [cfg|]; simpl; [|done].
  by intros ->.
Qed.

(** A value found at cloud.queue.rmq replaces the argument. *)
Lemma init_url_from_config (queue route : string) (amqp_url url : option string)
    (cfg : Config) :
  config_url cfg = Some url →
  _url (init queue route amqp_url (Some cfg)) = url.
Proof. unfold init. simpl. by intros ->. Qed.

(** C2. The claim is not met by the code: an instance built without URL
    argument and without configuration carries the default [''], which the
    [is None] test of [enqueue] lets through; the call then sleeps through
    its budget and ends with ChannelUnavailable, not ConfigurationError. *)
Theorem enqueue_default_url_passes_check :
  _url (obj default_queue) = Some "" ∧
  enqueue quiet 1 (Some "m") 1 default_queue
  = Some (tick default_queue, Raise ChannelUnavailable) ∧
  now (tick default_queue) = S (now default_queue).
Proof. split_and!; reflexivity. Qed.

(** The check fires for an attribute that is None, before anything else. *)
Lemma enqueue_unconfigured (schedule : nat → list event) (fuel : nat)
    (msg : option string) (retries : Z) :
  enqueue schedule fuel msg retries unconfigured_queue
  = Some (unconfigured_queue, Raise ConfigurationError).
Proof. by apply enqueue_url_none. Qed.

(** C3, as stated, fails: the empty string is published like any other
    body and its sequence number returned; and a None message on a queue
    whose URL is None meets the URL check first. *)
Lemma enqueue_empty_string_published :
  snd <$> enqueue ack_1_at_0 1 (Some "") 1 ready_queue = Some (Return 1) ∧
  basic_publish "StudioML.topic" "rk" ""
    ∈ default [] (calls ∘ fst <$> enqueue ack_1_at_0 1 (Some "") 1 ready_queue) ∧
  snd <$> enqueue quiet 1 None 1 unconfigured_queue
  = Some (Raise ConfigurationError).
Proof.
  split_and!; [reflexivity | | reflexivity].
  vm_compute. apply list_elem_of_In. simpl. auto.
Qed.

(** C3, amended.  On a queue whose URL is set, [enqueue] of an absent
    message (None) raises InvalidArgument with the world left as it was:
    nothing published, no sleep taken. *)
Theorem enqueue_none_message (schedule : nat → list event) (fuel : nat)
    (retries : Z) (url : string) (w : World) :
  _url (obj w) = Some url →
  enqueue schedule fuel None retries w = Some (w, Raise InvalidArgument).
Proof. intros Hu. unfold enqueue. by rewrite Hu. Qed.

Lemma enqueue_none_message_witness :
  enqueue quiet 0 None 10 ready_queue = Some (ready_queue, Raise InvalidArgument).
Proof.
  apply (enqueue_none_message quiet 0 10 "amqp://broker/" ready_queue).
  reflexivity.
Defined.

(** ** Sequence numbers over a connection lifetime *)

(** Only a turn of [run] rewinds the publish counter. *)
Lemma handle_message_number (e : event) (w : World) :
  is_reconnect e = false →
  _message_number (obj (handle e w).1) = _message_number (obj w).
Proof.
  intros He. destruct e; try discriminate He; simpl;
    unfold_handlers; case_handler.
Qed.

Lemma dispatch_message_number (e : event) (w : World) :
  is_reconnect e = false →
  _message_number (obj (dispatch w e)) = _message_number (obj w).
Proof.
  intros He. unfold dispatch. destruct (io_alive w); [|done].
  pose proof (handle_message_number e w He) as H.
  destruct (handle e w) as [w' [[]|x]]; simpl in *; done.
Qed.

Lemma foldl_dispatch_message_number (es : list event) (w : World) :
  Forall (λ e, is_reconnect e = false) es →
  _message_number (obj (foldl dispatch w es)) = _message_number (obj w).
Proof.
  intros Hes. revert w. induction Hes as [|e es He _ IH]; intros w; [done|].
  simpl. by rewrite IH, dispatch_message_number.
Qed.

Lemma numbered_bounds (base : Z) (outs : list (result Z)) :
  numbered base outs →
  StronglySorted Z.lt (returned outs) ∧ Forall (λ n, base < n) (returned outs).
Proof.
  revert base. induction outs as [|r outs IH]; intros base Hn.
  - split; constructor.
  - assert (Hup : ∀ b, numbered (b + 1) outs →
              StronglySorted Z.lt (returned outs) ∧
              Forall (λ n, b < n) (returned outs)).
    { intros b Hb. destruct (IH _ Hb) as [Hs Hf]. split; [done|].
      eapply Forall_impl; [exact Hf|]. simpl. intros; lia. }
    destruct r as [n|e]; simpl in Hn.
    + destruct Hn as [-> Hn]. destruct (IH _ Hn) as [Hs Hf].
      unfold returned in *. simpl. split.
      * by constructor.
      * constructor; [lia|]. eapply Forall_impl; [exact Hf|]. simpl. intros; lia.
    + destruct e; unfold returned in *; simpl; auto.
  Qed.

(** Without unconfirmed publishes the returned numbers have no gap. *)
Lemma numbered_consecutive (base : Z) (outs : list (result Z)) :
  numbered base outs →
  Forall (λ r, r ≠ Raise PublishUnconfirmed) outs →
  returned outs = seqZ (base + 1) (Z.of_nat (length (returned outs))).
Proof.
  revert base. induction outs as [|r outs IH]; intros base Hn Hc; [done|].
  apply Forall_cons in Hc as [Hr Hc].
  destruct r as [n|e]; simpl in Hn.
  - destruct Hn as [-> Hn]. unfold returned in *. cbn [omap list_omap length].
    rewrite seqZ_cons by lia. f_equal.
    rewrite (IH _ Hn Hc) at 1. f_equal; lia.
  - destruct e; try done; unfold returned in *; simpl; by apply IH.
Qed.

Section Lifetime.

Variable schedule : nat → list event.

Hypothesis lifetime : no_reconnect schedule.

Lemma sleep_message_number (w : World) :
  _message_number (obj (sleep schedule w)) = _message_number (obj w).
Proof.
  unfold sleep. simpl. apply foldl_dispatch_message_number, lifetime.
Qed.

Lemma wait_channel_message_number (fuel : nat) (tries t : Z) (w w' : World) :
  wait_channel schedule fuel tries w = Some (t, w') →
  _message_number (obj w') = _message_number (obj w).
Proof.
  revert tries w. induction fuel as [|fuel IH]; intros tries w;
    rewrite wait_channel_eq; destruct (decide (tries = 0));
    try (intros [= _ <-]; done); try done.
  destruct (channel_ready w); [intros [= _ <-]; done|].
  intros H. by rewrite (IH _ _ H), sleep_message_number.
Qed.

Lemma wait_confirm_outcome (fuel : nat) (tries num : Z) (w w' : World)
    (r : result Z) :
  wait_confirm schedule fuel tries num w = Some (w', r) →
  _message_number (obj w') = _message_number (obj w) ∧
  (r = Return num ∨ r = Raise PublishUnconfirmed).
Proof.
  revert tries w. induction fuel as [|fuel IH]; intros tries w;
    rewrite wait_confirm_eq; destruct (decide (tries = 0));
    try (intros [= <- <-]; by auto); try done.
  destruct (bool_decide _).
  - intros H. destruct (IH _ _ H) as [-> Hr].
    by rewrite sleep_message_number.
  - intros [= <- <-]. by rewrite sleep_message_number; auto.
Qed.

(** What one call does to the counter, by its outcome. *)
Lemma enqueue_outcome (fuel : nat) (msg : option string) (retries : Z)
    (w w' : World) (r : result Z) :
  enqueue schedule fuel msg retries w = Some (w', r) →
  match r with
  | Return n =>
      n = _message_number (obj w) + 1 ∧ _message_number (obj w') = n
  | Raise PublishUnconfirmed =>
      _message_number (obj w') = _message_number (obj w) + 1
  | Raise _ => _message_number (obj w') = _message_number (obj w)
  end.
Proof.
  unfold enqueue. destruct (_url (obj w)); [|intros [= <- <-]; done].
  destruct msg as [body|]; [|intros [= <- <-]; done].
  destruct (wait_channel schedule fuel retries w) as [[t w1]|] eqn:Hw; [|done].
  apply wait_channel_message_number in Hw.
  destruct (decide (t = 0)); [intros [= <- <-]; done|].
  destruct (_channel (obj w1)); [|intros [= <- <-]; done].
  intros H. apply wait_confirm_outcome in H as [Hm Hr].
  simpl in Hm. rewrite Hw in Hm.
  destruct Hr as [-> | ->]; simpl; rewrite ?Hw; auto.
Qed.

Lemma enqueue_seq_numbered (fuel : nat) (reqs : list (option string * Z))
    (w w' : World) (outs : list (result Z)) :
  enqueue_seq schedule fuel reqs w = Some (w', outs) →
  numbered (_message_number (obj w)) outs.
Proof.
  revert w w' outs.
  induction reqs as [|[msg retries] reqs IH]; intros w w' outs.
  - intros [= _ <-]. done.
  - simpl. destruct (enqueue schedule fuel msg retries w) as [[w1 r]|] eqn:He;
      [|done].
    destruct (enqueue_seq schedule fuel reqs w1) as [[w2 rs]|] eqn:Hs; [|done].
    intros [= _ <-]. apply enqueue_outcome in He. apply IH in Hs.
    destruct r as [n|e]; simpl.
    + destruct He as [-> He]. by rewrite <- He.
    + destruct e; rewrite <- He; done.
Qed.

End Lifetime.

(** C5, as stated, fails: right after a new connection attempt, a publish
    that goes unconfirmed takes number 1, and the only successful call of
    the lifetime returns 2. *)
Lemma enqueue_first_success_not_1 :
  no_reconnect ack_2_at_1 ∧
  snd <$> enqueue_seq ack_2_at_1 1 two_requests (run_turn conn1 ready_queue).1
  = Some [Raise PublishUnconfirmed; Return 2].
Proof.
  split; [|vm_compute; reflexivity].
  intros t. unfold ack_2_at_1. destruct (decide (t = 1%nat)); repeat constructor.
Qed.

(** C5, amended.  A new connection attempt (a turn of [run] while not
    stopping) empties the pending list and zeroes the ack, nack and publish
    counters.  In the lifetime that follows, the k-th publish takes number
    k whether or not it is confirmed, and a successful call returns the
    number of its own publish: the returned numbers are strictly
    increasing and at least 1, and they are exactly 1, 2, 3, ... when no
    call of the lifetime ended with PublishUnconfirmed. *)
Theorem enqueue_numbering (schedule : nat → list event) (fuel : nat)
    (reqs : list (option string * Z)) (c : Connection) (w w' : World)
    (outs : list (result Z)) :
  no_reconnect schedule → _stopping (obj w) = false →
  enqueue_seq schedule fuel reqs (run_turn c w).1 = Some (w', outs) →
  let w0 := (run_turn c w).1 in
  (_deliveries (obj w0) = [] ∧ _acked (obj w0) = 0 ∧ _nacked (obj w0) = 0 ∧
   _message_number (obj w0) = 0) ∧
  numbered 0 outs ∧
  StronglySorted Z.lt (returned outs) ∧
  Forall (λ n, 1 ≤ n) (returned outs) ∧
  (Forall (λ r, r ≠ Raise PublishUnconfirmed) outs →
   returned outs = seqZ 1 (Z.of_nat (length (returned outs)))).
Proof.
  intros Hs Hstop Hseq w0.
  assert (Hreset : _deliveries (obj w0) = [] ∧ _acked (obj w0) = 0 ∧
                   _nacked (obj w0) = 0 ∧ _message_number (obj w0) = 0).
  { unfold w0, run_turn. rewrite Hstop. done. }
  split; [exact Hreset|].
  apply (enqueue_seq_numbered schedule Hs) in Hseq. fold w0 in Hseq.
  destruct Hreset as (_ & _ & _ & Hzero). rewrite Hzero in Hseq.
  destruct (numbered_bounds _ _ Hseq) as [Hsort Hpos].
  split_and!; [done | done | | by apply (numbered_consecutive 0)].
  eapply Forall_impl; [exact Hpos|]. simpl. intros; lia.
Qed.

(** Two calls, each confirmed during its first sleep, return 1 and 2. *)
Lemma enqueue_numbering_witness :
  snd <$> enqueue_seq ack_in_turn 1 two_requests (run_turn conn1 ready_queue).1
  = Some [Return 1; Return 2] ∧
  numbered 0 [Return 1; Return 2] ∧
  StronglySorted Z.lt [1; 2] ∧
  returned [Return 1; Return 2] = seqZ 1 2.
Proof.
  split; [vm_compute; reflexivity|].
  destruct (enqueue_numbering ack_in_turn 1 two_requests conn1 ready_queue
              (default ready_queue
                 (fst <$> enqueue_seq ack_in_turn 1 two_requests
                            (run_turn conn1 ready_queue).1))
              [Return 1; Return 2])
    as (_ & Hn & Hs & _ & Hc).
  - intros t. repeat constructor.
  - reflexivity.
  - vm_compute. reflexivity.
  - split_and!; [exact Hn | exact Hs |].
    apply Hc. repeat constructor; discriminate.
Defined.

(** ** The held message across calls *)

Section Calls.

Variable schedule : nat → list event.

Lemma after_held (k : nat) (w : World) :
  is_Some (_rmq_msg (obj w)) → held (after schedule k w) = held w.
Proof.
  revert w. induction k as [|k IH]; intros w Hm; simpl; [done|].
  pose proof (sleep_held schedule w Hm) as Hs.
  rewrite IH; [exact Hs|].
  change (is_Some (held (sleep schedule w)).1). by rewrite Hs.
Qed.

Lemma wait_channel_after (fuel : nat) (tries t : Z) (w w' : World) :
  wait_channel schedule fuel tries w = Some (t, w') →
  ∃ k, w' = after schedule k w.
Proof.
  revert tries w. induction fuel as [|fuel IH]; intros tries w;
    rewrite wait_channel_eq; destruct (decide (tries = 0));
    try (intros [= _ <-]; by exists 0%nat); try done.
  destruct (channel_ready w); [intros [= _ <-]; by exists 0%nat|].
  intros H. destruct (IH _ _ H) as [k ->]. by exists (S k).
Qed.

Lemma wait_confirm_after (fuel : nat) (tries num : Z) (w w' : World)
    (r : result Z) :
  wait_confirm schedule fuel tries num w = Some (w', r) →
  ∃ k, w' = after schedule k w.
Proof.
  revert tries w. induction fuel as [|fuel IH]; intros tries w;
    rewrite wait_confirm_eq; destruct (decide (tries = 0));
    try (intros [= <- <-]; by exists 0%nat); try done.
  destruct (bool_decide _).
  - intros H. destruct (IH _ _ H) as [k ->]. by exists (S k).
  - intros [= <- <-]. by exists 1%nat.
Qed.

(** [enqueue] never touches the held slot. *)
Lemma enqueue_held (fuel : nat) (msg : option string) (retries : Z)
    (w w' : World) (r : result Z) :
  is_Some (_rmq_msg (obj w)) →
  enqueue schedule fuel msg retries w = Some (w', r) →
  held w' = held w.
Proof.
  intros Hm. unfold enqueue.
  destruct (_url (obj w)); [|intros [= <- <-]; done].
  destruct msg as [body|]; [|intros [= <- <-]; done].
  destruct (wait_channel schedule fuel retries w) as [[t w1]|] eqn:Hw; [|done].
  apply wait_channel_after in Hw as [k ->].
  pose proof (after_held k w Hm) as Hk.
  destruct (decide (t = 0)); [intros [= <- <-]; done|].
  destruct (_channel (obj (after schedule k w))); [|intros [= <- <-]; done].
  intros H. apply wait_confirm_after in H as [j ->].
  rewrite after_held; [exact Hk|].
  change (is_Some (held (after schedule k w)).1). by rewrite Hk.
Qed.

(** A dequeue on a holding state: the held pair, or the refusal of the
    registration. *)
Lemma dequeue_holding (timeout : Z) (m : string) (w : World) :
  0 ≤ timeout → _rmq_msg (obj w) = Some m →
  dequeue schedule timeout w
  = ((ensure_consuming w).1,
     if can_register w then Return (Some (m, _rmq_id (obj w)))
     else Raise ChannelClosed).
Proof.
  intros Ht Hm. destruct (can_register w) eqn:Hc.
  - by apply dequeue_held.
  - rewrite (ensure_consuming_refused w Hc). by apply dequeue_refused.
Qed.

Lemma stop_held (w : World) : held (stop w).1 = held w.
Proof.
  unfold stop, close_channel, close_connection, held. simpl. case_handler.
Qed.

Lemma perform_held (a : action) (m : string) (w w' : World)
    (rs : list (result (option (string * option Z)))) :
  _rmq_msg (obj w) = Some m → timeout_nonneg a →
  perform schedule a w = Some (w', rs) →
  held w' = held w ∧
  rs = match a with
       | call_dequeue _ =>
           [if can_register w then Return (Some (m, _rmq_id (obj w)))
            else Raise ChannelClosed]
       | _ => []
       end.
Proof.
  intros Hm Ha. assert (Hs : is_Some (_rmq_msg (obj w))) by eauto.
  destruct a; simpl.
  - rewrite (dequeue_holding timeout m) by done. intros [= <- <-].
    by rewrite ensure_consuming_held.
  - destruct (enqueue schedule fuel msg retries w) as [[w1 r]|] eqn:He; [|done].
    intros [= <- <-]. by rewrite (enqueue_held _ _ _ _ _ _ Hs He).
  - by intros [= <- <-].
  - intros [= <- <-]. by rewrite stop_held.
  - by intros [= <- <-].
  - by intros [= <- <-].
  - intros [= <- <-]. by rewrite dispatch_held.
  - intros [= <- <-]. by rewrite sleep_held.
Qed.

End Calls.

(** C10, as stated, fails twice over.  [dequeue(timeout=-1)] runs no turn
    of its loop and returns None although a message is held; and after a
    further delivery (which forgets the consumer) and [stop] (which leaves
    the channel set but no longer open), [dequeue(timeout=0)] raises the
    library's ChannelClosed from its consumer registration, before it
    looks at the slot. *)
Lemma dequeue_held_not_returned :
  _rmq_msg (obj holding_queue) = Some "first" ∧
  dequeue quiet (-1) holding_queue = (holding_queue, Return None) ∧
  _rmq_msg (obj stopped_holding) = Some "first" ∧
  dequeue quiet 0 stopped_holding = (stopped_holding, Raise ChannelClosed).
Proof. split_and!; reflexivity. Qed.

(** C10, amended to timeouts [>= 0] and to dequeues whose consumer
    registration is not refused.  From a state holding a message, over any
    sequence of calls and callbacks in which [acknowledge] does not occur
    (dequeue with any timeout [>= 0], enqueue, hold, stop, has_next,
    delete, sleeps, every callback of the I/O thread, new connection
    attempts included), the slot holds the same body and handle at the
    end, and each dequeue has either returned that pair or raised
    ChannelClosed; a dequeue raises exactly when it has to register a
    consumer on a channel that is set but not open.  Only [acknowledge]
    clears the slot. *)
Theorem held_until_acknowledge (schedule : nat → list event)
    (acts : list action) (m : string) (w w' : World)
    (outs : list (result (option (string * option Z)))) :
  _rmq_msg (obj w) = Some m →
  Forall timeout_nonneg acts →
  perform_all schedule acts w = Some (w', outs) →
  held w' = held w ∧
  length outs = dequeues acts ∧
  Forall (λ r, r = Return (Some (m, _rmq_id (obj w))) ∨ r = Raise ChannelClosed)
    outs ∧
  (∀ timeout, 0 ≤ timeout →
     (dequeue schedule timeout w).2
     = if can_register w then Return (Some (m, _rmq_id (obj w)))
       else Raise ChannelClosed).
Proof.
  intros Hm Hacts Hp.
  assert (Hone : ∀ timeout, 0 ≤ timeout →
            (dequeue schedule timeout w).2
            = if can_register w then Return (Some (m, _rmq_id (obj w)))
              else Raise ChannelClosed).
  { intros timeout Ht. by rewrite (dequeue_holding schedule timeout m). }
  cut (held w' = held w ∧ length outs = dequeues acts ∧
       Forall (λ r, r = Return (Some (m, _rmq_id (obj w))) ∨
                    r = Raise ChannelClosed) outs).
  { intros (H1 & H2 & H3). done. }
  clear Hone. revert w w' outs Hm Hp.
  induction Hacts as [|a acts Ha _ IH]; intros w w' outs Hm.
  - intros [= <- <-]. split_and!; [done | done | constructor].
  - simpl. destruct (perform schedule a w) as [[w1 rs]|] eqn:Hp; [|done].
    destruct (perform_all schedule acts w1) as [[w2 rs']|] eqn:Hq; [|done].
    intros [= <- <-].
    destruct (perform_held schedule a m w w1 rs Hm Ha Hp) as [Hh ->].
    assert (Hm1 : _rmq_msg (obj w1) = Some m).
    { change ((held w1).1 = Some m). by rewrite Hh. }
    assert (Hid : _rmq_id (obj w1) = _rmq_id (obj w)).
    { change ((held w1).2 = (held w).2). by rewrite Hh. }
    destruct (IH _ _ _ Hm1 Hq) as (Hh' & Hlen & Hall).
    rewrite Hid in Hall. rewrite Hh', Hh.
    split_and!; [done | |].
    + rewrite length_app, Hlen. by destruct a.
    + apply Forall_app. split; [|done].
      destruct a; try constructor; [|constructor].
      destruct (can_register w); auto.
Qed.

(** Two dequeues around a rejected delivery, a lost channel and a new
    connection attempt: both return the held pair. *)
Lemma held_until_acknowledge_witness :
  let acts :=
    [call_dequeue 0; io_event (message 7 "second"); io_event channel_closed;
     io_event (run_loop conn1); call_sleep; call_dequeue 2] in
  snd <$> perform_all quiet acts holding_queue
  = Some [Return (Some ("first", Some 5)); Return (Some ("first", Some 5))] ∧
  held (default holding_queue (fst <$> perform_all quiet acts holding_queue))
  = (Some "first", Some 5).
Proof.
  intros acts. split; [vm_compute; reflexivity|].
  destruct (perform_all quiet acts holding_queue) as [[w' outs]|] eqn:Hp;
    [|vm_compute in Hp; discriminate].
  destruct (held_until_acknowledge quiet acts "first" holding_queue w' outs)
    as [Hh _]; [reflexivity | | exact Hp | exact Hh].
  unfold acts. repeat constructor; simpl; lia.
Defined.

(** * Further properties *)

(** ** How a call can end *)

Section Exits.

Variable schedule : nat → list event.

(** The first loop of [enqueue] ends after some sleeps, its count lowered
    by their number, and with a count other than zero only on a channel
    found open. *)
Lemma wait_channel_exit (fuel : nat) (tries t : Z) (w w' : World) :
  wait_channel schedule fuel tries w = Some (t, w') →
  ∃ k, w' = after schedule k w ∧ t = tries - Z.of_nat k ∧
       (0 ≤ tries → Z.of_nat k ≤ tries) ∧
       (t ≠ 0 → channel_ready w' = true).
Proof.
  revert tries w. induction fuel as [|fuel IH]; intros tries w;
    rewrite wait_channel_eq; destruct (decide (tries = 0));
    try (intros [= <- <-]; exists 0%nat; split_and!; [done | lia | lia | done]);
    try done.
  destruct (channel_ready w) eqn:Hr.
  - intros [= <- <-]. exists 0%nat. split_and!; [done | lia | lia | done].
  - intros H. destruct (IH _ _ H) as (k & -> & -> & Hle & Hk).
    exists (S k). split_and!; [done | lia | lia | done].
Qed.

(** The second loop ends after some sleeps: with the number, found gone
    after the last of them, or with the error, after as many sleeps as the
    budget, the last of which left the number pending. *)
Lemma wait_confirm_exit (fuel : nat) (tries num : Z) (w w' : World)
    (r : result Z) :
  wait_confirm schedule fuel tries num w = Some (w', r) →
  ∃ j, w' = after schedule j w ∧
       ((r = Return num ∧ (num ∉ _deliveries (obj w')) ∧ (1 ≤ j)%nat) ∨
        (r = Raise PublishUnconfirmed ∧ tries = Z.of_nat j ∧
         (j ≠ 0%nat → num ∈ _deliveries (obj w')))).
Proof.
  revert tries w. induction fuel as [|fuel IH]; intros tries w;
    rewrite wait_confirm_eq; destruct (decide (tries = 0));
    try (intros [= <- <-]; exists 0%nat; split; [done|]; right;
         split_and!; [done | lia | done]);
    try done.
  destruct (bool_decide _) eqn:Hb.
  - apply bool_decide_eq_true_1 in Hb. intros H.
    destruct (IH _ _ H) as (j & -> & [(-> & Hout & Hj) | (-> & Ht & Hin)]).
    + exists (S j). split; [done|]. left. split_and!; [done | done | lia].
    + exists (S j). split; [done|]. right. split_and!; [done | lia |].
      intros _. destruct j as [|j]; [exact Hb | by apply Hin].
  - apply bool_decide_eq_false_1 in Hb. intros [= <- <-].
    exists 1%nat. split; [done|]. left. split_and!; [done | done | lia].
Qed.

(** The five ways in which a call of [enqueue] ends. *)
Lemma enqueue_exit (fuel : nat) (msg : option string) (retries : Z)
    (w w' : World) (r : result Z) :
  enqueue schedule fuel msg retries w = Some (w', r) →
  (w' = w ∧ r = Raise ConfigurationError ∧ _url (obj w) = None) ∨
  (w' = w ∧ r = Raise InvalidArgument ∧ msg = None) ∨
  (∃ k, w' = after schedule k w ∧ r = Raise ChannelUnavailable ∧
        retries = Z.of_nat k) ∨
  (∃ k j body,
     msg = Some body ∧ channel_ready (after schedule k w) = true ∧
     w' = after schedule j (publish body (after schedule k w)) ∧
     let num := _message_number (obj (after schedule k w)) + 1 in
     (r = Return num ∧ (num ∉ _deliveries (obj w')) ∧ (1 ≤ j)%nat) ∨
     (r = Raise PublishUnconfirmed ∧ retries = Z.of_nat j ∧ j ≠ 0%nat ∧
      num ∈ _deliveries (obj w'))).
Proof.
  unfold enqueue. destruct (_url (obj w)) eqn:Hu; [|intros [= <- <-]; auto].
  destruct msg as [body|]; [|intros [= <- <-]; auto].
  destruct (wait_channel schedule fuel retries w) as [[t w1]|] eqn:Hw; [|done].
  apply wait_channel_exit in Hw as (k & -> & -> & Hle & Hready).
  destruct (decide (retries - Z.of_nat k = 0)) as [Hz|Hnz].
  { intros [= <- <-]. right. right. left. exists k. split_and!; [done | done | lia]. }
  specialize (Hready Hnz).
  destruct (channel_ready_Some _ Hready) as [ch Hch]. rewrite Hch.
  intros H. apply wait_confirm_exit in H as (j & -> & Hr).
  right. right. right. exists k, j, body. split_and!; [done | done | done |].
  simpl in *. destruct Hr as [Hr | (-> & -> & Hin)]; [by left|].
  right. assert (j ≠ 0%nat) by lia.
  split_and!; [done | done | done | by apply Hin].
Qed.

(** A call of [dequeue] ends in the world some turn of its loop found,
    as it found it or after the consumer registration of that turn. *)
Lemma dequeue_loop_exit (n : nat) (i timeout : Z) (w w' : World)
    (r : result (option (string * option Z))) :
  dequeue_loop schedule n i timeout w = (w', r) →
  ∃ k, w' = poll_world schedule k w ∨
       w' = (ensure_consuming (poll_world schedule k w)).1.
Proof.
  revert i w. induction n as [|n IH]; intros i w; simpl.
  - intros [= <- <-]. exists 0%nat. by left.
  - destruct (ensure_consuming w) as [w1 [[]|e]] eqn:He.
    + destruct (_rmq_msg (obj w1)) as [m|] eqn:Hm.
      * intros [= <- <-]. exists 0%nat. right. simpl. by rewrite He.
      * destruct (decide (timeout ≤ i)).
        -- intros [= <- <-]. exists 0%nat. right. simpl. by rewrite He.
        -- intros H. destruct (IH _ _ H) as [k Hk]. exists (S k). simpl.
           by rewrite He.
    + intros [= <- <-]. exists 0%nat. right. simpl. by rewrite He.
Qed.

End Exits.

(** ** Lifting an invariant of the steps to every operation *)

Section Invariant.

Variable schedule : nat → list event.
Variable P : World → Prop.

Hypothesis P_dispatch : ∀ w e, P w → P (dispatch w e).
Hypothesis P_tick : ∀ w, P w → P (tick w).
Hypothesis P_publish : ∀ body w, P w → P (publish body w).
Hypothesis P_consume : ∀ w, P w → P (ensure_consuming w).1.
Hypothesis P_stop : ∀ w, P w → P (stop w).1.
Hypothesis P_acknowledge : ∀ ack_id w, P w → P (acknowledge ack_id w).1.

Lemma invariant_sleep (w : World) : P w → P (sleep schedule w).
Proof.
  intros Hw. unfold sleep. apply P_tick.
  generalize (schedule (now w)) as es. intros es. revert w Hw.
  induction es as [|e es IH]; intros w Hw; simpl; [done|].
  by apply IH, P_dispatch.
Qed.

Lemma invariant_after (k : nat) (w : World) : P w → P (after schedule k w).
Proof.
  revert w. induction k as [|k IH]; intros w Hw; simpl; [done|].
  by apply IH, invariant_sleep.
Qed.

Lemma invariant_poll_world (k : nat) (w : World) :
  P w → P (poll_world schedule k w).
Proof.
  revert w. induction k as [|k IH]; intros w Hw; simpl; [done|].
  by apply IH, invariant_sleep, P_consume.
Qed.

Lemma invariant_enqueue (fuel : nat) (msg : option string) (retries : Z)
    (w w' : World) (r : result Z) :
  P w → enqueue schedule fuel msg retries w = Some (w', r) → P w'.
Proof.
  intros Hw H.
  destruct (enqueue_exit schedule _ _ _ _ _ _ H)
    as [(-> & _) | [(-> & _) | [(k & -> & _) | (k & j & body & _ & _ & -> & _)]]];
    [done | done | by apply invariant_after |].
  by apply invariant_after, P_publish, invariant_after.
Qed.

Lemma invariant_dequeue (timeout : Z) (w : World) :
  P w → P (dequeue schedule timeout w).1.
Proof.
  intros Hw. unfold dequeue.
  destruct (dequeue_loop schedule (Z.to_nat (timeout + 1)) 0 timeout w)
    as [w' r] eqn:H.
  destruct (dequeue_loop_exit schedule _ _ _ _ _ _ H) as [k [-> | ->]];
    simpl; [|apply P_consume]; by apply invariant_poll_world.
Qed.

Lemma invariant_clean (fuel : nat) (timeout : Z) (w w' : World)
    (r : result unit) :
  P w → clean schedule fuel timeout w = Some (w', r) → P w'.
Proof.
  revert w. induction fuel as [|fuel IH]; intros w Hw; simpl; [done|].
  pose proof (invariant_dequeue timeout w Hw) as Hd.
  destruct (dequeue schedule timeout w) as [w1 [[p|]|e]]; simpl in Hd.
  - by apply IH.
  - by intros [= <- _].
  - by intros [= <- _].
Qed.

Lemma invariant_perform (a : action) (w w' : World)
    (rs : list (result (option (string * option Z)))) :
  P w → perform schedule a w = Some (w', rs) → P w'.
Proof.
  intros Hw. destruct a; simpl.
  - pose proof (invariant_dequeue timeout w Hw) as Hd.
    destruct (dequeue schedule timeout w) as [w1 r]. by intros [= <- _].
  - destruct (enqueue schedule fuel msg retries w) as [[w1 r]|] eqn:He; [|done].
    intros [= <- _]. by eapply invariant_enqueue.
  - by intros [= <- _].
  - intros [= <- _]. by apply P_stop.
  - by intros [= <- _].
  - by intros [= <- _].
  - intros [= <- _]. by apply P_dispatch.
  - intros [= <- _]. by apply invariant_sleep.
Qed.

Lemma invariant_run_ops (ops : list op) (w w' : World) :
  P w → run_ops schedule ops w = Some w' → P w'.
Proof.
  revert w. induction ops as [|o ops IH]; intros w Hw; simpl.
  - by intros [= <-].
  - destruct o as [a | ack_id | fuel timeout].
    + destruct (perform schedule a w) as [[w1 rs]|] eqn:Hp; [|done].
      apply IH. by eapply invariant_perform.
    + by apply IH, P_acknowledge.
    + destruct (clean schedule fuel timeout w) as [[w1 r]|] eqn:Hc; [|done].
      apply IH. by eapply invariant_clean.
Qed.

End Invariant.

(** ** The binding never changes *)

Lemma handle_binding (e : event) (w : World) :
  binding (handle e w).1 = binding w.
Proof. unfold binding. destruct e; simpl; unfold_handlers; case_handler. Qed.

Lemma dispatch_binding (w : World) (e : event) :
  binding (dispatch w e) = binding w.
Proof.
  unfold dispatch. destruct (io_alive w); [|done].
  pose proof (handle_binding e w) as H.
  destruct (handle e w) as [w' [[]|x]]; simpl in *; done.
Qed.

Lemma ensure_consuming_binding (w : World) :
  binding (ensure_consuming w).1 = binding w.
Proof. unfold ensure_consuming, binding. case_handler. Qed.

Lemma stop_binding (w : World) : binding (stop w).1 = binding w.
Proof.
  unfold stop, close_channel, close_connection, binding. simpl. case_handler.
Qed.

Lemma acknowledge_binding (ack_id : Z) (w : World) :
  binding (acknowledge ack_id w).1 = binding w.
Proof. unfold acknowledge, binding. simpl. case_handler. Qed.

(** X1. Exchange, exchange kind, queue name, routing key and URL are fixed
    by the constructor: whatever sequence of calls ([dequeue], [enqueue],
    [acknowledge], [clean], [stop], [hold], ...) and callbacks follows,
    they are as they were, so [get_name] always answers the same name. *)
Theorem binding_immutable (schedule : nat → list event) (ops : list op)
    (w w' : World) :
  run_ops schedule ops w = Some w' →
  binding w' = binding w ∧ get_name w' = get_name w.
Proof.
  intros H.
  assert (Hb : binding w' = binding w).
  { revert H. apply (invariant_run_ops schedule (λ x, binding x = binding w));
      try done.
    - intros x e Hx. by rewrite dispatch_binding.
    - intros x Hx. by rewrite ensure_consuming_binding.
    - intros x Hx. by rewrite stop_binding.
    - intros i x Hx. by rewrite acknowledge_binding. }
  split; [done|]. unfold binding in Hb. unfold get_name. congruence.
Qed.

Lemma binding_immutable_witness :
  get_name (default offline_queue (run_ops ack_in_turn busy_session offline_queue))
  = "work".
Proof.
  destruct (run_ops ack_in_turn busy_session offline_queue) as [w'|] eqn:H;
    [|vm_compute in H; discriminate].
  destruct (binding_immutable ack_in_turn busy_session offline_queue w' H)
    as [_ Hn].
  exact Hn.
Defined.

(** ** stop is final *)

Lemma handle_stopping (e : event) (w : World) :
  _stopping (obj (handle e w).1) = _stopping (obj w).
Proof. destruct e; simpl; unfold_handlers; case_handler. Qed.

Lemma handle_stopped_message_number (e : event) (w : World) :
  _stopping (obj w) = true →
  _message_number (obj (handle e w).1) = _message_number (obj w).
Proof.
  intros Hs. destruct e; simpl; unfold_handlers; rewrite ?Hs; case_handler.
Qed.

(** X2. Once [_stopping] is set it stays set, and the publish counter is
    never rewound: after [stop], no sequence of calls and callbacks, turns
    of [run] included, resets the numbering. *)
Theorem stop_is_final (schedule : nat → list event) (ops : list op)
    (w w' : World) :
  run_ops schedule ops (stop w).1 = Some w' →
  _stopping (obj w') = true ∧ _message_number (obj w) ≤ _message_number (obj w').
Proof.
  apply (invariant_run_ops schedule
           (λ x, _stopping (obj x) = true ∧
                 _message_number (obj w) ≤ _message_number (obj x))).
  - intros x e [Hs Hm]. unfold dispatch. destruct (io_alive x); [|done].
    pose proof (handle_stopping e x) as H1.
    pose proof (handle_stopped_message_number e x Hs) as H2.
    destruct (handle e x) as [x' [[]|err]]; simpl in *; rewrite H1, H2; done.
  - done.
  - intros body x [Hs Hm]. simpl. split; [done | lia].
  - intros x [Hs Hm]. unfold ensure_consuming. case_handler.
  - intros x [Hs Hm]. unfold stop, close_channel, close_connection. simpl.
    case_handler.
  - intros i x [Hs Hm]. unfold acknowledge. simpl. case_handler.
  - unfold stop, close_channel, close_connection. simpl.
    case_handler; split; (done || lia).
Qed.

(** After a stop at publish number 3, a turn of [run] and one more
    publish. *)
Lemma stop_is_final_witness :
  let w := upd (set_tracking [] 3 0 3) ready_queue in
  let ops := [do_action (io_event (run_loop conn1));
              do_action (call_enqueue 2 (Some "b") 1)] in
  3 ≤ _message_number (obj (default w (run_ops quiet ops (stop w).1))).
Proof.
  intros w ops.
  destruct (run_ops quiet ops (stop w).1) as [w'|] eqn:H;
    [|vm_compute in H; discriminate].
  destruct (stop_is_final quiet ops w w' H) as [_ Hm]. exact Hm.
Defined.

(** ** The bookkeeping of publishes *)

(** The invariant only reads the four tracked attributes and, for its last
    part, the state of the I/O thread. *)
Lemma tracking_ok_frame (w w' : World) :
  tracking w' = tracking w →
  (io_alive w' = true → io_alive w = true) →
  tracking_ok w → tracking_ok w'.
Proof.
  unfold tracking, tracking_ok. intros [= -> -> -> ->] Hio H.
  destruct H as (H1 & H2 & H3 & H4 & H5 & H6). auto 10.
Qed.

Lemma handle_tracking (e : event) (w : World) :
  is_tracking_event e = false → tracking (handle e w).1 = tracking w.
Proof.
  intros He. unfold tracking.
  destruct e; try discriminate He; simpl; unfold_handlers; case_handler.
Qed.

Lemma list_remove_NoDup (x : Z) (l l' : list Z) :
  list_remove x l = Some l' → NoDup l →
  NoDup l' ∧ l' ⊆ l ∧ S (length l') = length l.
Proof.
  intros Hrem Hnd.
  destruct (decide (x ∈ l)) as [Hin|Hnot];
    [|by rewrite list_remove_absent in Hrem].
  destruct (list_remove_elem x l Hin) as (l1 & l2 & -> & _ & Hrem').
  rewrite Hrem' in Hrem. injection Hrem as <-.
  apply NoDup_app in Hnd as (Hn1 & Hn12 & Hn2).
  apply NoDup_cons in Hn2 as [Hx Hn2].
  split_and!.
  - apply NoDup_app. split_and!; [done | | done].
    intros y Hy Hy2. apply (Hn12 y Hy). by right.
  - intros y [Hy|Hy]%elem_of_app; apply elem_of_app; [by left|].
    right. by right.
  - rewrite !length_app. simpl. lia.
Qed.

Lemma on_delivery_confirmation_tracking_ok (f : MethodFrame) (w : World) :
  tracking_ok w →
  match on_delivery_confirmation f w with
  | (w', Return _) => tracking_ok w'
  | (w', Raise _) => tracking_ok (kill_io w')
  end.
Proof.
  intros (Hnd & Hall & Ha & Hn & Hm & Hsum).
  unfold on_delivery_confirmation.
  destruct (list_remove (delivery_tag f) (_deliveries (obj w))) as [d|] eqn:Hrem.
  - destruct (list_remove_NoDup _ _ _ Hrem Hnd) as (Hnd' & Hsub & Hlen).
    unfold tracking_ok. simpl. split_and!; try done.
    + apply Forall_forall. intros y Hy. rewrite Forall_forall in Hall.
      apply Hall. by apply Hsub.
    + destruct (decide _); lia.
    + destruct (decide _); [lia|]. destruct (decide _); lia.
    + intros Hio. specialize (Hsum Hio). unfold confirmation_type in *.
      destruct (NAME f); simpl; lia.
  - unfold tracking_ok. simpl. split_and!; try done.
    + destruct (decide _); lia.
    + destruct (decide _); [lia|]. destruct (decide _); lia.
Qed.

Lemma run_turn_tracking_ok (c : Connection) (w : World) :
  tracking_ok w → tracking_ok (run_turn c w).1.
Proof.
  intros H. unfold run_turn. destruct (_stopping (obj w)); [done|].
  unfold tracking_ok. simpl. split_and!; try done; try constructor.
Qed.

Lemma dispatch_tracking_ok (w : World) (e : event) :
  tracking_ok w → tracking_ok (dispatch w e).
Proof.
  intros H. unfold dispatch. destruct (io_alive w) eqn:Hio; [|done].
  destruct (is_tracking_event e) eqn:He.
  - destruct e; try discriminate He; simpl.
    + pose proof (on_delivery_confirmation_tracking_ok method_frame w H) as Hc.
      by destruct (on_delivery_confirmation method_frame w) as [w' [[]|err]].
    + pose proof (run_turn_tracking_ok c w H) as Hr.
      unfold run_turn in *. by destruct (_stopping (obj w)).
  - pose proof (handle_tracking e w He) as Ht.
    destruct (handle e w) as [w' [[]|err]]; simpl in *;
      (eapply tracking_ok_frame; [| |exact H]); done.
Qed.

Lemma publish_tracking_ok (body : string) (w : World) :
  tracking_ok w → tracking_ok (publish body w).
Proof.
  intros (Hnd & Hall & Ha & Hn & Hm & Hsum). unfold tracking_ok. simpl.
  rewrite Forall_forall in Hall. split_and!; try done; try lia.
  - apply NoDup_app. split_and!; [done | | apply NoDup_singleton].
    intros y Hy ->%list_elem_of_singleton. specialize (Hall _ Hy). lia.
  - apply Forall_app. split.
    + apply Forall_forall. intros y Hy. specialize (Hall _ Hy). lia.
    + apply Forall_singleton. lia.
  - intros Hio. specialize (Hsum Hio). rewrite length_app. simpl. lia.
Qed.

(** X3. Whatever calls and callbacks follow the construction of the
    object, the pending numbers are pairwise distinct, each lies between 1
    and the number of publishes, the ack and nack counters are not
    negative, and, for as long as no callback has raised, pending plus
    acked plus nacked equals the number of publishes. *)
Theorem tracking_invariant (schedule : nat → list event)
    (queue route : string) (amqp_url : option string)
    (config : option Config) (ops : list op) (w' : World) :
  run_ops schedule ops (fresh (init queue route amqp_url config)) = Some w' →
  tracking_ok w'.
Proof.
  apply (invariant_run_ops schedule tracking_ok).
  - apply dispatch_tracking_ok.
  - intros w. by apply tracking_ok_frame.
  - apply publish_tracking_ok.
  - intros w. apply tracking_ok_frame; unfold ensure_consuming, tracking;
      case_handler.
  - intros w. apply tracking_ok_frame;
      unfold stop, close_channel, close_connection, tracking; simpl;
      case_handler.
  - intros i w. apply tracking_ok_frame; unfold acknowledge, tracking; simpl;
      case_handler.
  - unfold tracking_ok. simpl. split_and!; try done; try constructor.
Qed.

Lemma tracking_invariant_witness :
  tracking_ok
    (default offline_queue (run_ops ack_in_turn busy_session offline_queue)).
Proof.
  destruct (run_ops ack_in_turn busy_session offline_queue) as [w'|] eqn:H;
    [|vm_compute in H; discriminate].
  exact (tracking_invariant ack_in_turn "work" "rk" (Some "amqp://broker/")
           None busy_session w' H).
Defined.

(** ** clean and the edges of dequeue *)

(** A registration that went through leaves nothing to register. *)
Lemma ensure_consuming_can_register (w : World) :
  can_register w = true → can_register (ensure_consuming w).1 = true.
Proof.
  unfold can_register, ensure_consuming.
  destruct (_consumer (obj w)) eqn:Hc, (_channel (obj w)) as [ch|] eqn:Hch;
    simpl; rewrite ?Hc, ?Hch; try done.
  intros ->. simpl. done.
Qed.

(** With nothing held and nothing delivered, one call of [dequeue] whose
    registrations go through sleeps through its timeout and finds
    nothing. *)
Lemma dequeue_empty (schedule : nat → list event) (timeout : Z) (w : World) :
  _rmq_msg (obj w) = None → no_delivery schedule →
  (∀ k, Z.of_nat k ≤ timeout →
     can_register (poll_world schedule k w) = true) →
  ∃ w', dequeue schedule timeout w = (w', Return None) ∧
        now w' = (now w + Z.to_nat timeout)%nat ∧ held w' = held w.
Proof.
  intros Hm Hs Hcan. unfold dequeue.
  destruct (decide (0 ≤ timeout)) as [Ht|Ht].
  - replace (Z.to_nat (timeout + 1)) with (S (Z.to_nat timeout)) by lia.
    eexists. split_and!.
    + apply dequeue_loop_empty; [lia | |].
      * intros k Hk. apply Hcan. lia.
      * intros k _. change ((held (poll_world schedule k w)).1 = None).
        by rewrite poll_world_held_no_delivery.
    + by rewrite ensure_consuming_now, poll_world_now.
    + by rewrite ensure_consuming_held, poll_world_held_no_delivery.
  - replace (Z.to_nat (timeout + 1)) with 0%nat by lia.
    replace (Z.to_nat timeout) with 0%nat by lia.
    exists w. simpl. split_and!; [done | lia | done].
Qed.

(** X4. While a message is held, [clean] with a timeout that is not
    negative never returns normally.  When its first [dequeue] has to
    register a consumer on a channel that is set but not open, the
    library's ChannelClosed ends it at once; otherwise every [dequeue] of
    its loop returns the held pair, which is never falsy, nothing in the
    loop acknowledges it, and the loop has no last turn. *)
Theorem clean_never_ends_while_held (schedule : nat → list event)
    (timeout : Z) (w : World) :
  0 ≤ timeout → is_Some (_rmq_msg (obj w)) →
  (can_register w = true → ∀ fuel, clean schedule fuel timeout w = None) ∧
  (can_register w = false →
   ∀ fuel, clean schedule (S fuel) timeout w = Some (w, Raise ChannelClosed)).
Proof.
  intros Ht Hm. split.
  - intros Hc fuel. revert w Hm Hc.
    induction fuel as [|fuel IH]; intros w [m Hm] Hc; simpl; [done|].
    rewrite (dequeue_held schedule timeout m w Ht Hc Hm).
    apply IH; [|by apply ensure_consuming_can_register].
    rewrite ensure_consuming_msg. eauto.
  - intros Hc fuel. simpl. by rewrite (dequeue_refused schedule timeout w Ht Hc).
Qed.

Lemma clean_never_ends_while_held_witness :
  clean deliver_at_1 50 0 holding_queue = None ∧
  clean deliver_at_1 50 0 stopped_holding
  = Some (stopped_holding, Raise ChannelClosed).
Proof.
  destruct (clean_never_ends_while_held deliver_at_1 0 holding_queue)
    as [H1 _]; [lia | simpl; eauto |].
  destruct (clean_never_ends_while_held deliver_at_1 0 stopped_holding)
    as [_ H2]; [lia | simpl; eauto |].
  split; [by apply H1 | by apply H2].
Defined.

(** X5. With nothing held, no delivery on its way and no consumer
    registration refused, [clean] ends after a single [dequeue]: it
    returns after the sleeps of one timeout, leaving the slot empty. *)
Theorem clean_empty (schedule : nat → list event) (fuel : nat) (timeout : Z)
    (w : World) :
  _rmq_msg (obj w) = None → no_delivery schedule →
  (∀ k, Z.of_nat k ≤ timeout →
     can_register (poll_world schedule k w) = true) →
  ∃ w', clean schedule (S fuel) timeout w = Some (w', Return ()) ∧
        now w' = (now w + Z.to_nat timeout)%nat ∧
        held w' = held w.
Proof.
  intros Hm Hs Hcan.
  destruct (dequeue_empty schedule timeout w Hm Hs Hcan) as (w' & Hd & Hn & Hh).
  exists w'. simpl. by rewrite Hd.
Qed.

Lemma clean_empty_witness :
  ∃ w', clean quiet 1 3 ready_queue = Some (w', Return ()) ∧
        now w' = 3%nat ∧ held w' = (None, None).
Proof.
  apply (clean_empty quiet 0 3 ready_queue); [reflexivity | |].
  - intros t. constructor.
  - intros k Hk. destruct k as [|[|[|[|k]]]]; [reflexivity.. | lia].
Defined.

(** X6. With a negative timeout [dequeue] runs no turn of its loop: it
    returns None at once, without registering a consumer, without looking
    at the slot and without sleeping. *)
Theorem dequeue_negative_timeout (schedule : nat → list event) (timeout : Z)
    (w : World) :
  timeout < 0 → dequeue schedule timeout w = (w, Return None).
Proof.
  intros Ht. unfold dequeue.
  by replace (Z.to_nat (timeout + 1)) with 0%nat by lia.
Qed.

Lemma dequeue_negative_timeout_witness :
  dequeue deliver_at_1 (-3) holding_queue = (holding_queue, Return None).
Proof. apply dequeue_negative_timeout. lia. Defined.

(** ** The outcomes of enqueue *)

(** X7. With a negative budget, a URL and a message, [enqueue] never gives
    up: a call that ends returns a sequence number, and raises neither
    ChannelUnavailable nor PublishUnconfirmed. *)
Theorem enqueue_negative_retries_returns (schedule : nat → list event)
    (fuel : nat) (body : string) (retries : Z) (w w' : World) (r : result Z) :
  is_Some (_url (obj w)) → retries < 0 →
  enqueue schedule fuel (Some body) retries w = Some (w', r) →
  ∃ n, r = Return n.
Proof.
  intros [u Hu] Hr H.
  destruct (enqueue_exit schedule _ _ _ _ _ _ H)
    as [(_ & _ & Hn) | [(_ & _ & Hn) | [(k & _ & _ & Hk) |
        (k & j & b & _ & _ & _ & [(-> & _) | (_ & Hj & _)])]]];
    [congruence | done | lia | eauto | lia].
Qed.

(** The channel opens during the third sleep and the publish is confirmed
    during the fourth. *)
Lemma enqueue_negative_retries_returns_witness :
  let late : nat → list event :=
    λ t, if decide (t = 2%nat) then [channel_open chan1]
         else if decide (t = 3%nat)
              then [delivery_confirmation {| NAME := Basic_Ack; delivery_tag := 1 |}]
              else [] in
  snd <$> enqueue late 10 (Some "m") (-1) offline_queue = Some (Return 1) ∧
  ∃ n, Return 1 = Return n.
Proof.
  intros late. split; [vm_compute; reflexivity|].
  destruct (enqueue late 10 (Some "m") (-1) offline_queue) as [[w' r]|] eqn:He;
    [|vm_compute in He; discriminate].
  assert (r = Return 1) as <-.
  { vm_compute in He. by injection He as _ <-. }
  apply (enqueue_negative_retries_returns late 10 "m" (-1) offline_queue w' r);
    [simpl; eauto | lia | exact He].
Defined.

Lemma after_message_number (schedule : nat → list event) (k : nat) (w : World) :
  no_reconnect schedule →
  _message_number (obj (after schedule k w)) = _message_number (obj w).
Proof.
  intros Hs. revert w. induction k as [|k IH]; intros w; simpl; [done|].
  by rewrite IH, sleep_message_number.
Qed.

(** X8. Within one connection lifetime, a call that gives up with
    PublishUnconfirmed leaves its number in the pending list, where only a
    later confirmation or reconnect removes it; a call that returns a
    number leaves the list without it. *)
Theorem enqueue_pending_after (schedule : nat → list event) (fuel : nat)
    (msg : option string) (retries : Z) (w w' : World) (r : result Z) :
  no_reconnect schedule →
  enqueue schedule fuel msg retries w = Some (w', r) →
  (∀ n, r = Return n → n ∉ _deliveries (obj w')) ∧
  (r = Raise PublishUnconfirmed →
   _message_number (obj w) + 1 ∈ _deliveries (obj w') ∧
   _message_number (obj w') = _message_number (obj w) + 1).
Proof.
  intros Hs H.
  destruct (enqueue_exit schedule _ _ _ _ _ _ H)
    as [(_ & -> & _) | [(_ & -> & _) | [(k & _ & -> & _) |
        (k & j & b & _ & _ & -> & [(-> & Hout & _) | (-> & _ & _ & Hin)])]]].
  - split; [intros n [=] | intros [=]].
  - split; [intros n [=] | intros [=]].
  - split; [intros n [=] | intros [=]].
  - split; [|intros [=]]. by intros n [= <-].
  - split; [intros n [=]|]. intros _.
    rewrite (after_message_number schedule k w Hs) in Hin.
    split; [done|].
    rewrite after_message_number by done. simpl.
    by rewrite after_message_number.
Qed.

(** A publish that nobody confirms, with a budget of two. *)
Lemma enqueue_pending_after_witness :
  snd <$> enqueue quiet 2 (Some "m") 2 ready_queue
  = Some (Raise PublishUnconfirmed) ∧
  1 ∈ _deliveries
        (obj (default ready_queue (fst <$> enqueue quiet 2 (Some "m") 2 ready_queue))).
Proof.
  split; [vm_compute; reflexivity|].
  destruct (enqueue quiet 2 (Some "m") 2 ready_queue) as [[w' r]|] eqn:He;
    [|vm_compute in He; discriminate].
  assert (r = Raise PublishUnconfirmed) as Hr.
  { vm_compute in He. by injection He as _ <-. }
  destruct (enqueue_pending_after quiet 2 (Some "m") 2 ready_queue w' r)
    as [_ Hp]; [intros t; constructor | exact He |].
  destruct (Hp Hr) as [Hin _]. exact Hin.
Defined.

(** X9. A call of [enqueue] publishes at most once, and never on a channel
    that its last check did not find open: a call that returns a number or
    gives up with PublishUnconfirmed has published its message once, after
    a check that found the channel open, and has otherwise only slept; a
    call that ends in any other way has only slept. *)
Theorem enqueue_publishes_once (schedule : nat → list event) (fuel : nat)
    (msg : option string) (retries : Z) (w w' : World) (r : result Z) :
  enqueue schedule fuel msg retries w = Some (w', r) →
  match r with
  | Return _ | Raise PublishUnconfirmed =>
      ∃ k j body,
        msg = Some body ∧ channel_ready (after schedule k w) = true ∧
        w' = after schedule j (publish body (after schedule k w))
  | Raise _ => ∃ k, w' = after schedule k w
  end.
Proof.
  intros H.
  destruct (enqueue_exit schedule _ _ _ _ _ _ H)
    as [(-> & -> & _) | [(-> & -> & _) | [(k & -> & -> & _) |
        (k & j & b & -> & Hr & -> & [(-> & _) | (-> & _)])]]].
  - by exists 0%nat.
  - by exists 0%nat.
  - by exists k.
  - by exists k, j, b.
  - by exists k, j, b.
Qed.

(** With a silent I/O thread the calls of the two outcomes can be read
    off: nothing for a channel that is not open, one publish otherwise. *)
Lemma enqueue_publishes_once_witness :
  (calls ∘ fst <$> enqueue quiet 2 (Some "m") 2 offline_queue) = Some [] ∧
  (calls ∘ fst <$> enqueue quiet 2 (Some "m") 2 ready_queue)
  = Some [basic_publish "StudioML.topic" "rk" "m"] ∧
  ∃ k j, default ready_queue (fst <$> enqueue quiet 2 (Some "m") 2 ready_queue)
         = after quiet j (publish "m" (after quiet k ready_queue)).
Proof.
  split_and!; [vm_compute; reflexivity | vm_compute; reflexivity |].
  destruct (enqueue quiet 2 (Some "m") 2 ready_queue) as [[w' r]|] eqn:He;
    [|vm_compute in He; discriminate].
  assert (r = Raise PublishUnconfirmed) as Hr.
  { vm_compute in He. by injection He as _ <-. }
  pose proof (enqueue_publishes_once quiet 2 (Some "m") 2 ready_queue w' r He)
    as Hp.
  rewrite Hr in Hp. destruct Hp as (k & j & body & [= <-] & _ & ->).
  by exists k, j.
Defined.

(** ** A delivery from arrival to acknowledgment *)

(** Only a delivery forgets the consumer. *)
Lemma handle_consumer (e : event) (w : World) :
  is_delivery e = false →
  _consumer (obj (handle e w).1) = _consumer (obj w).
Proof.
  intros He. destruct e; try discriminate He; simpl; unfold_handlers;
    case_handler.
Qed.

Lemma sleep_consumer (schedule : nat → list event) (w : World) :
  no_delivery schedule →
  _consumer (obj (sleep schedule w)) = _consumer (obj w).
Proof.
  intros Hs. unfold sleep. simpl. specialize (Hs (now w)).
  revert Hs. generalize (schedule (now w)) as es. intros es Hes. revert w.
  induction Hes as [|e es He _ IH]; intros w; simpl; [done|].
  rewrite IH. unfold dispatch. destruct (io_alive w); [|done].
  pose proof (handle_consumer e w He) as H.
  destruct (handle e w) as [w' [[]|err]]; simpl in *; done.
Qed.

(** With a consumer registered and no delivery on its way, no turn of a
    dequeue has anything to register. *)
Lemma poll_world_registered (schedule : nat → list event) (k : nat)
    (w : World) :
  no_delivery schedule → is_Some (_consumer (obj w)) →
  can_register (poll_world schedule k w) = true.
Proof.
  intros Hs. revert w. induction k as [|k IH]; intros w [c Hc].
  - simpl. unfold can_register. by rewrite Hc.
  - cbn [poll_world]. apply IH. rewrite sleep_consumer by done.
    unfold ensure_consuming. rewrite Hc. simpl. rewrite Hc. eauto.
Qed.

(** X10. A delivery that finds the slot empty on a queue whose channel is
    open is what the next [dequeue] (timeout not negative) returns, body
    and tag; [acknowledge] of that tag then empties the slot, after which
    [dequeue] finds nothing as long as nothing new is delivered.  On the
    broker the three steps amount to: cancel the consumer, register a new
    one (by the [dequeue] that returns the message), acknowledge the tag;
    no time passes. *)
Theorem deliver_dequeue_acknowledge (schedule : nat → list event)
    (tag : Z) (body : string) (timeout : Z) (w : World) :
  _rmq_msg (obj w) = None → channel_ready w = true → 0 ≤ timeout →
  let w1 := (on_message tag body w).1 in
  let w2 := (dequeue schedule timeout w1).1 in
  let w3 := (acknowledge tag w2).1 in
  (dequeue schedule timeout w1).2 = Return (Some (body, Some tag)) ∧
  calls w3
  = calls w ++ [basic_cancel (_consumer (obj w));
                basic_consume (_queue (obj w)); basic_ack tag] ∧
  held w3 = (None, None) ∧
  now w3 = now w ∧
  (no_delivery schedule →
   ∀ t, ∃ w4, dequeue schedule t w3 = (w4, Return None)).
Proof.
  intros Hm Hready Ht w1 w2 w3.
  unfold channel_ready in Hready.
  destruct (_channel (obj w)) as [ch|] eqn:Hch; [|done].
  assert (Hw1 : w1 = upd (set_held (Some body) (Some tag))
                       (upd (set_consumer None)
                          (call (basic_cancel (_consumer (obj w))) w))).
  { unfold w1, on_message. rewrite Hch. simpl. by rewrite Hm. }
  assert (Hc1 : can_register w1 = true).
  { rewrite Hw1. unfold can_register. simpl. by rewrite Hch. }
  assert (H1 : _rmq_msg (obj w1) = Some body) by by rewrite Hw1.
  assert (Hd : dequeue schedule timeout w1
               = ((ensure_consuming w1).1,
                  Return (Some (body, _rmq_id (obj w1)))))
    by by apply dequeue_held.
  assert (Hw3 : held w3 = (None, None) ∧ now w3 = now w ∧
                is_Some (_consumer (obj w3)) ∧
                calls w3 = calls w ++ [basic_cancel (_consumer (obj w));
                                       basic_consume (_queue (obj w));
                                       basic_ack tag]).
  { unfold w3, w2. rewrite Hd, Hw1. unfold ensure_consuming, acknowledge.
    simpl. rewrite Hch, Hready. simpl. rewrite Hch. simpl.
    split_and!; [done | done | eauto |]. by rewrite <- !app_assoc. }
  destruct Hw3 as (Hh & Hn & Hco & Hc).
  split_and!; [|done|done|done|].
  - rewrite Hd, Hw1. done.
  - intros Hs t.
    destruct (dequeue_empty schedule t w3) as (w4 & H4 & _);
      [|done| |by exists w4].
    + change ((held w3).1 = None). by rewrite Hh.
    + intros k _. by apply poll_world_registered.
Qed.

Lemma deliver_dequeue_acknowledge_witness :
  (dequeue quiet 2 (on_message 9 "job" ready_queue).1).2
  = Return (Some ("job", Some 9)) ∧
  calls (acknowledge 9 (dequeue quiet 2 (on_message 9 "job" ready_queue).1).1).1
  = [basic_cancel None; basic_consume "work"; basic_ack 9].
Proof.
  destruct (deliver_dequeue_acknowledge quiet 9 "job" 2 ready_queue)
    as (Hr & Hc & _); [reflexivity | reflexivity | lia |].
  split; [exact Hr | exact Hc].
Defined.

(** ** The channel set-up *)

(** X11. Run on a live I/O thread, the four callbacks of a channel set-up
    make, in this order, the calls basic_qos(0), exchange_declare of the
    object's exchange and kind, queue_declare of its queue, queue_bind of
    queue, exchange and routing key, and confirm_delivery; they install
    the channel, which [enqueue] then finds ready exactly when it is open,
    and they touch neither the publish bookkeeping nor the held slot. *)
Theorem handshake_calls (channel : Channel) (w : World) :
  io_alive w = true →
  let w' := foldl dispatch w (handshake channel) in
  calls w'
  = calls w ++ [basic_qos 0;
                exchange_declare (_exchange (obj w)) (_exchange_type (obj w));
                queue_declare (_queue (obj w));
                queue_bind (_queue (obj w)) (_exchange (obj w))
                  (_routing_key (obj w));
                confirm_delivery] ∧
  _channel (obj w') = Some channel ∧
  channel_ready w' = is_open channel ∧
  io_alive w' = true ∧
  tracking w' = tracking w ∧
  held w' = held w.
Proof.
  intros Hio. destruct w as [q cs n io]. simpl in Hio. subst io.
  unfold handshake, channel_ready, tracking, held. cbn.
  split_and!; try done. by rewrite <- !app_assoc.
Qed.

(** On a freshly built object the exchange is the topic exchange
    StudioML.topic. *)
Lemma handshake_calls_witness :
  calls (foldl dispatch offline_queue (handshake chan1))
  = [basic_qos 0; exchange_declare "StudioML.topic" "topic";
     queue_declare "work"; queue_bind "work" "StudioML.topic" "rk";
     confirm_delivery] ∧
  channel_ready (foldl dispatch offline_queue (handshake chan1)) = true.
Proof.
  destruct (handshake_calls chan1 offline_queue) as (Hc & _ & Hr & _);
    [reflexivity|].
  split; [exact Hc | exact Hr].
Defined.

(** ** The URL taken from the configuration *)

(** X12. A value found at cloud.queue.rmq replaces the [amqp_url]
    argument whatever that argument is; when the value found is None, every
    [enqueue] on the new object raises ConfigurationError at once, with no
    sleep and no broker call, although a URL was passed to the
    constructor. *)
Theorem config_url_overrides (schedule : nat → list event) (fuel : nat)
    (msg : option string) (retries : Z) (queue route : string)
    (amqp_url url : option string) (cfg : Config) :
  config_url cfg = Some url →
  let w := fresh (init queue route amqp_url (Some cfg)) in
  _url (obj w) = url ∧
  (url = None →
   enqueue schedule fuel msg retries w = Some (w, Raise ConfigurationError)).
Proof.
  intros Hc w.
  assert (Hu : _url (obj w) = url) by by apply init_url_from_config.
  split; [done|]. intros ->. by apply enqueue_url_none.
Qed.

Lemma config_url_overrides_witness :
  let w := fresh (init "work" "rk" (Some "amqp://broker/") (Some null_rmq_config)) in
  _url (obj w) = None ∧
  enqueue quiet 1 (Some "m") 10 w = Some (w, Raise ConfigurationError).
Proof.
  intros w.
  destruct (config_url_overrides quiet 1 (Some "m") 10 "work" "rk"
              (Some "amqp://broker/") None null_rmq_config) as [Hu He];
    [vm_compute; reflexivity|].
  split; [exact Hu | by apply He].
Defined.

(** ** One consumer per dequeue *)

Lemma ensure_consuming_idem (w : World) :
  (ensure_consuming (ensure_consuming w).1).1 = (ensure_consuming w).1.
Proof.
  unfold ensure_consuming.
  destruct (_consumer (obj w)) eqn:Hc, (_channel (obj w)) as [ch|] eqn:Hch;
    simpl; rewrite ?Hc, ?Hch; try done.
  destruct (is_open ch) eqn:Ho; simpl; rewrite ?Hc, ?Hch, ?Ho; done.
Qed.

Lemma ensure_consuming_tick (w : World) :
  (ensure_consuming (tick w)).1 = tick (ensure_consuming w).1.
Proof.
  unfold ensure_consuming. simpl.
  destruct (_consumer (obj w)), (_channel (obj w)) as [ch|]; try done.
  by destruct (is_open ch).
Qed.

(** While the I/O thread runs nothing, the turns of the loop only move the
    clock. *)
Lemma poll_world_silent (schedule : nat → list event) (k : nat) (w : World) :
  (∀ t, schedule t = []) →
  (ensure_consuming (poll_world schedule k w)).1
  = Nat.iter k tick (ensure_consuming w).1.
Proof.
  intros Hs. revert w. induction k as [|k IH]; intros w; [done|].
  cbn [poll_world]. rewrite IH. unfold sleep. rewrite Hs. simpl.
  rewrite ensure_consuming_tick, ensure_consuming_idem.
  clear. induction k as [|k IH]; simpl; [done|]. by rewrite IH.
Qed.

Lemma poll_world_silent_can_register (schedule : nat → list event) (k : nat)
    (w : World) :
  (∀ t, schedule t = []) → can_register w = true →
  can_register (poll_world schedule k w) = true.
Proof.
  intros Hs. revert w. induction k as [|k IH]; intros w Hc; [done|].
  cbn [poll_world]. apply IH. unfold sleep. rewrite Hs. simpl.
  by apply ensure_consuming_can_register in Hc.
Qed.

Lemma iter_tick (k : nat) (w : World) :
  obj (Nat.iter k tick w) = obj w ∧ calls (Nat.iter k tick w) = calls w.
Proof. induction k as [|k [IH1 IH2]]; simpl; [done|]. by rewrite IH1, IH2. Qed.

(** X13. While the I/O thread runs no callback, a [dequeue] that times out
    (timeout not negative, slot empty, first registration not refused)
    makes at most one broker call, however many turns its loop takes: the
    basic_consume of the first turn, made when a channel exists and no
    consumer is registered, whose tag is then remembered; with a consumer
    registered, or without a channel, it makes none. *)
Theorem dequeue_registers_once (schedule : nat → list event) (N : Z)
    (w : World) :
  (∀ t, schedule t = []) → 0 ≤ N → _rmq_msg (obj w) = None →
  can_register w = true →
  ∃ w', dequeue schedule N w = (w', Return None) ∧
        match _consumer (obj w), _channel (obj w) with
        | None, Some _ =>
            calls w' = calls w ++ [basic_consume (_queue (obj w))] ∧
            is_Some (_consumer (obj w'))
        | _, _ => calls w' = calls w ∧ _consumer (obj w') = _consumer (obj w)
        end.
Proof.
  intros Hs HN Hm Hcan.
  assert (Hnd : no_delivery schedule) by (intros t; rewrite Hs; constructor).
  exists (Nat.iter (Z.to_nat N) tick (ensure_consuming w).1). split.
  - unfold dequeue.
    replace (Z.to_nat (N + 1)) with (S (Z.to_nat N)) by lia.
    rewrite <- (poll_world_silent schedule) by done.
    apply dequeue_loop_empty; [lia | |].
    + intros k _. by apply poll_world_silent_can_register.
    + intros k _. change ((held (poll_world schedule k w)).1 = None).
      by rewrite poll_world_held_no_delivery.
  - destruct (iter_tick (Z.to_nat N) (ensure_consuming w).1) as [-> ->].
    revert Hcan. unfold can_register, ensure_consuming.
    destruct (_consumer (obj w)) eqn:Hc, (_channel (obj w)) as [ch|] eqn:Hch;
      simpl; rewrite ?Hc; eauto.
    intros ->. simpl. eauto.
Qed.

Lemma dequeue_registers_once_witness :
  ∃ w', dequeue quiet 5 ready_queue = (w', Return None) ∧
        calls w' = [basic_consume "work"] ∧ is_Some (_consumer (obj w')).
Proof.
  destruct (dequeue_registers_once quiet 5 ready_queue) as (w' & Hd & Hc);
    [done | lia | reflexivity | reflexivity |].
  exists w'. split; [exact Hd | exact Hc].
Defined.

(** X16. A [dequeue] with a timeout that is not negative, called when no
    consumer is registered and the channel is set but not open, raises
    ChannelClosed from the registration of its first turn: before looking
    at the slot, without sleeping, and leaving the object as it was.  This
    is the state [stop] leaves behind on a queue that had an open channel
    and no consumer. *)
Theorem dequeue_registration_refused (schedule : nat → list event)
    (timeout : Z) (w : World) :
  0 ≤ timeout →
  (can_register w = false →
   dequeue schedule timeout w = (w, Raise ChannelClosed)) ∧
  (channel_ready w = true → _consumer (obj w) = None →
   dequeue schedule timeout (stop w).1 = ((stop w).1, Raise ChannelClosed)).
Proof.
  intros Ht. split.
  - intros Hc. by apply dequeue_refused.
  - intros Hr Hco. apply dequeue_refused; [done|].
    unfold channel_ready in Hr.
    destruct (_channel (obj w)) as [ch|] eqn:Hch; [|done].
    unfold stop, close_channel, close_connection, can_register. simpl.
    rewrite Hch, Hr. simpl. destruct (_connection (obj w)); simpl;
      by rewrite Hco.
Qed.

Lemma dequeue_registration_refused_witness :
  dequeue deliver_at_1 4 (stop ready_queue).1
  = ((stop ready_queue).1, Raise ChannelClosed).
Proof.
  destruct (dequeue_registration_refused deliver_at_1 4 ready_queue) as [_ H];
    [lia|].
  by apply H.
Defined.

(** ** Confirmations are not idempotent *)

(** X14. When the pending numbers are distinct, a confirmation for a
    pending tag returns normally and the same confirmation handed over a
    second time raises ValueError from the removal: the pending list is as
    the first one left it, and a counter has been bumped twice. *)
Theorem confirmation_twice_raises (f : MethodFrame) (w : World) :
  NoDup (_deliveries (obj w)) → delivery_tag f ∈ _deliveries (obj w) →
  let w1 := (on_delivery_confirmation f w).1 in
  let w2 := (on_delivery_confirmation f w1).1 in
  (on_delivery_confirmation f w).2 = Return () ∧
  (on_delivery_confirmation f w1).2 = Raise ValueError ∧
  _deliveries (obj w2) = _deliveries (obj w1) ∧
  (delivery_tag f ∉ _deliveries (obj w1)) ∧
  _acked (obj w2) + _nacked (obj w2) = _acked (obj w) + _nacked (obj w) + 2.
Proof.
  intros Hnd Hin w1 w2.
  destruct (list_remove_elem _ _ Hin) as (l1 & l2 & _ & _ & Hrem).
  remember (l1 ++ l2) as d eqn:Hd0. clear l1 l2 Hd0.
  destruct (list_remove_NoDup _ _ _ Hrem Hnd) as (Hnd' & Hsub & Hlen).
  assert (H1 : on_delivery_confirmation f w
               = (w1, Return ()) ∧ _deliveries (obj w1) = d ∧
                 _acked (obj w1) + _nacked (obj w1)
                 = _acked (obj w) + _nacked (obj w) + 1).
  { unfold w1, on_delivery_confirmation. rewrite Hrem. simpl.
    split_and!; [done | done |]. unfold confirmation_type.
    destruct (NAME f); simpl; lia. }
  destruct H1 as (H1 & Hd & Hsum).
  assert (Hout : delivery_tag f ∉ _deliveries (obj w1)).
  { rewrite Hd. intros Hin'.
    destruct (list_remove_elem _ _ Hin) as (l1 & l2 & Hl & Hn1 & Hrem').
    rewrite Hrem' in Hrem. injection Hrem as <-.
    rewrite Hl in Hnd. apply NoDup_app in Hnd as (_ & Hn12 & Hn2).
    apply NoDup_cons in Hn2 as [Hx _].
    apply elem_of_app in Hin' as [Hin'|Hin']; [|done].
    apply (Hn12 _ Hin'). by left. }
  destruct (on_delivery_confirmation_unknown f w1 Hout) as (w2' & H2 & Hd2 & Hs2).
  unfold w2. rewrite H1, H2. simpl. split_and!; [done | done | done | done | lia].
Qed.

Lemma confirmation_twice_raises_witness :
  let f := {| NAME := Basic_Ack; delivery_tag := 2 |} in
  let w := upd (set_tracking [1; 2; 3] 0 0 3) ready_queue in
  (on_delivery_confirmation f (on_delivery_confirmation f w).1).2
  = Raise ValueError ∧
  _acked (obj (on_delivery_confirmation f (on_delivery_confirmation f w).1).1)
  = 2.
Proof.
  intros f w.
  destruct (confirmation_twice_raises f w) as (_ & H & _).
  - simpl. apply NoDup_ListNoDup. repeat constructor; simpl; intuition lia.
  - simpl. apply list_elem_of_In. simpl. auto.
  - split; [exact H | reflexivity].
Defined.

(** ** enqueue without a channel *)

(** Only on_channel_open installs a channel. *)
Lemma handle_no_channel (e : event) (w : World) :
  is_channel_open e = false → _channel (obj w) = None →
  _channel (obj (handle e w).1) = None.
Proof.
  intros He Hc.
  destruct e; try discriminate He; simpl; unfold_handlers; rewrite ?Hc;
    case_handler.
Qed.

Lemma after_no_channel (schedule : nat → list event) (k : nat) (w : World) :
  (∀ t, Forall (λ e, is_channel_open e = false) (schedule t)) →
  _channel (obj w) = None → _channel (obj (after schedule k w)) = None.
Proof.
  intros Hs. revert w. induction k as [|k IH]; intros w Hc; simpl; [done|].
  apply IH. unfold sleep. simpl. specialize (Hs (now w)).
  revert Hs Hc. generalize (schedule (now w)) as es. intros es Hes. revert w.
  induction Hes as [|e es He _ IHes]; intros w Hc; simpl; [done|].
  apply IHes. unfold dispatch. destruct (io_alive w); [|done].
  pose proof (handle_no_channel e w He Hc) as H.
  destruct (handle e w) as [w' [[]|err]]; simpl in *; done.
Qed.

(** X15. On an object that has a URL but no channel, and for as long as
    the I/O thread opens none, [enqueue] with a budget that is not negative
    sleeps through the whole budget and raises ChannelUnavailable: the
    world it leaves is the one the sleeps alone produce, so the message was
    not published and no sequence number was taken. *)
Theorem enqueue_without_channel (schedule : nat → list event) (fuel : nat)
    (body : string) (retries : Z) (w : World) :
  is_Some (_url (obj w)) → _channel (obj w) = None →
  (∀ t, Forall (λ e, is_channel_open e = false) (schedule t)) →
  0 ≤ retries → (Z.to_nat retries ≤ fuel)%nat →
  enqueue schedule fuel (Some body) retries w
  = Some (after schedule (Z.to_nat retries) w, Raise ChannelUnavailable) ∧
  now (after schedule (Z.to_nat retries) w) = (now w + Z.to_nat retries)%nat.
Proof.
  intros [u Hu] Hc Hs Hr Hf. split; [|apply after_now].
  unfold enqueue. rewrite Hu.
  replace retries with (Z.of_nat (Z.to_nat retries)) at 1 by lia.
  rewrite (wait_channel_exhaust schedule (Z.to_nat retries) fuel w Hf).
  - by destruct (decide (0 = 0)).
  - intros k _. unfold channel_ready. by rewrite after_no_channel.
Qed.

(** Confirmations and deliveries arrive, but no channel is opened. *)
Lemma enqueue_without_channel_witness :
  snd <$> enqueue ack_in_turn 3 (Some "m") 3 offline_queue
  = Some (Raise ChannelUnavailable) ∧
  now (after ack_in_turn 3 offline_queue) = 3%nat.
Proof.
  destruct (enqueue_without_channel ack_in_turn 3 "m" 3 offline_queue)
    as [-> Hn].
  - simpl. eauto.
  - reflexivity.
  - intros t. repeat constructor.
  - lia.
  - simpl. lia.
  - split; [reflexivity | exact Hn].
Defined.
